(** * chemicalguys-com-documentation: the SDS scraper of [main.go]

    A shallow embedding of the Go program that fetches the Chemical Guys
    safety-data-sheet page, extracts the PDF links and downloads each of
    them, together with the properties its specification states.

    [main.go] is kept in several revisions:
    - the regex revisions ([ExtractURLsFromHTMLFile], file-backed page);
    - the goquery revision ([getSDSLinks], structural HTML parsing);
    - the last revision, whose [getFileNamesFromURLs] lower-cases the
      name and whose [downloadPDF] tests the folder with
      [directoryExists].
    Functions that are the same in every revision are embedded once.

    Go strings are byte sequences: they are modelled as [list ascii]. *)

From Stdlib Require Import Ascii List Arith Lia Bool.
From stdpp Require Import gmap strings list.

Set Default Proof Using "Type".

(** ** String literals for Go strings *)

Abbreviation gostring := (list ascii).

Inductive literal := LNil | LCons (a : ascii) (l : literal).

Fixpoint literal_of_bytes (l : list Byte.byte) : literal :=
  match l with
  | [] => LNil
  | b :: r => LCons (ascii_of_byte b) (literal_of_bytes r)
  end.

Fixpoint bytes_of_literal (l : literal) : list Byte.byte :=
  match l with
  | LNil => []
  | LCons a r => byte_of_ascii a :: bytes_of_literal r
  end.

Declare Scope go_scope.
Delimit Scope go_scope with go.
#[warnings="-via-type-mismatch"]
String Notation list literal_of_bytes bytes_of_literal
  (via literal mapping [[nil] => LNil, [cons] => LCons]) : go_scope.
Open Scope go_scope.

(** The double quote character, and a one-character string of it. *)
Definition dquote : ascii := "034"%char.
Definition squote : ascii := "039"%char.
Definition dq : gostring := [dquote].

(** ** Package [strings] *)

Module strings.

(** [strings.HasPrefix]; on success the rest of [s] is returned too
    (the Go code slices it off where it needs it). *)
Fixpoint CutPrefix (s prefix : gostring) {struct prefix} : option gostring :=
  match prefix, s with
  | [], _ => Some s
  | p :: prefix', c :: s' => if Ascii.eqb p c then CutPrefix s' prefix' else None
  | _ :: _, [] => None
  end.

Definition HasPrefix (s prefix : gostring) : bool :=
  match CutPrefix s prefix with Some _ => true | None => false end.

(** [strings.Contains]: [substr] occurs at some offset of [s]. *)
Fixpoint Contains (s substr : gostring) : bool :=
  HasPrefix s substr ||
  match s with
  | [] => false
  | _ :: s' => Contains s' substr
  end.

(** [strings.ReplaceAll] for a one-byte [old]: every occurrence of
    the byte is replaced by [new]. *)
Fixpoint ReplaceAll1 (s : gostring) (old : ascii) (new : gostring) : gostring :=
  match s with
  | [] => []
  | c :: s' =>
      (if Ascii.eqb c old then new else [c]) ++ ReplaceAll1 s' old new
  end.

(** [strings.Cut]: text before and after the first occurrence of the
    byte [sep], and whether it occurs. *)
Fixpoint Cut1 (s : gostring) (sep : ascii) : gostring * gostring * bool :=
  match s with
  | [] => ([], [], false)
  | c :: s' =>
      if Ascii.eqb c sep then ([], s', true)
      else let '(before, after, found) := Cut1 s' sep in
           (c :: before, after, found)
  end.

(** [strings.LastIndex] of a byte, as the split around its last
    occurrence. *)
Fixpoint CutLast1 (s : gostring) (sep : ascii) : option (gostring * gostring) :=
  match s with
  | [] => None
  | c :: s' =>
      match CutLast1 s' sep with
      | Some (before, after) => Some (c :: before, after)
      | None => if Ascii.eqb c sep then Some ([], s') else None
      end
  end.

(** [strings.Index]: the split around the first occurrence of
    [substr]. *)
Fixpoint CutAt (s substr : gostring) : option (gostring * gostring) :=
  match CutPrefix s substr with
  | Some after => Some ([], after)
  | None =>
      match s with
      | [] => None
      | c :: s' =>
          match CutAt s' substr with
          | Some (before, after) => Some (c :: before, after)
          | None => None
          end
      end
  end.

(** The byte classes of ASCII. *)
Definition between (lo hi c : ascii) : bool :=
  (nat_of_ascii lo <=? nat_of_ascii c) && (nat_of_ascii c <=? nat_of_ascii hi).

Definition is_upper (c : ascii) : bool := between "A" "Z" c.
Definition is_lower (c : ascii) : bool := between "a" "z" c.
Definition is_digit (c : ascii) : bool := between "0" "9" c.
Definition is_alnum (c : ascii) : bool := is_upper c || is_lower c || is_digit c.

(** [c < utf8.RuneSelf]: a one-byte rune. *)
Definition is_ascii (c : ascii) : bool := nat_of_ascii c <? 128.

(** One of the bytes of [set]. *)
Definition one_of (set : gostring) (c : ascii) : bool :=
  existsb (Ascii.eqb c) set.

Definition lower_byte (c : ascii) : ascii :=
  if is_upper c then ascii_of_nat (nat_of_ascii c + 32) else c.

(** [strings.ToLower].  A string of one-byte runes is mapped byte by
    byte (the fast path of the library).  Otherwise the library maps
    every rune through the Unicode tables: [unicode_lower] stands for
    that mapping, which the program never inspects. *)
Definition ToLower (unicode_lower : gostring → gostring) (s : gostring)
    : gostring :=
  if forallb is_ascii s then map lower_byte s else unicode_lower s.

End strings.

(** ** Package [regexp]: a backtracking matcher

    Go's [regexp] returns, at the leftmost position where the expression
    matches, the match a backtracking search finds first (leftmost-first
    semantics).  The matcher below is that backtracking search, written
    with a continuation for what follows the sub-expression.  The
    expression of this program uses repetition on a character class only,
    so [PlusClass] is the only repetition.  Characters are bytes: every
    class of the program separates ASCII bytes only, so matching bytes
    and matching UTF-8 runes agree. *)

Module regexp.

Inductive re : Type :=
| Lit (l : gostring)
| Class (p : ascii → bool)
| Cat (r1 r2 : re)
| Alt (r1 r2 : re)
| Opt (r : re)
| PlusClass (p : ascii → bool)
| Group (i : nat) (r : re).

(** Capture groups that took part in the match, latest first. *)
Definition captures := list (nat * gostring).

Fixpoint capture (c : captures) (i : nat) : gostring :=
  match c with
  | [] => []
  | (j, t) :: c' => if Nat.eqb i j then t else capture c' i
  end.

(** The text consumed between the input [s] and its suffix [s']. *)
Definition consumed (s s' : gostring) : gostring :=
  take (length s - length s') s.

Section Matcher.
Context {R : Type}.

(** Greedy [[p]+]: extend the run first, give up bytes afterwards. *)
Fixpoint plus_class (p : ascii → bool) (s : gostring)
    (k : gostring → option R) : option R :=
  match s with
  | [] => None
  | a :: s' =>
      if p a then
        match plus_class p s' k with
        | Some x => Some x
        | None => k s'
        end
      else None
  end.

Fixpoint run (r : re) (s : gostring) (c : captures)
    (k : gostring → captures → option R) : option R :=
  match r with
  | Lit l =>
      match strings.CutPrefix s l with
      | Some s' => k s' c
      | None => None
      end
  | Class p =>
      match s with
      | a :: s' => if p a then k s' c else None
      | [] => None
      end
  | Cat r1 r2 => run r1 s c (λ s' c', run r2 s' c' k)
  | Alt r1 r2 =>
      match run r1 s c k with
      | Some x => Some x
      | None => run r2 s c k
      end
  | Opt r1 =>
      match run r1 s c k with
      | Some x => Some x
      | None => k s c
      end
  | PlusClass p => plus_class p s (λ s', k s' c)
  | Group i r1 => run r1 s c (λ s' c', k s' ((i, consumed s s') :: c'))
  end.
End Matcher.

(** The continuation at the end of the expression: the match is
    accepted with the input that is left and the groups. *)
Definition accept : gostring → captures → option (gostring * captures) :=
  λ s' c, Some (s', c).

(** A match anchored at the start of [s]. *)
Definition match_here (r : re) (s : gostring) : option (gostring * captures) :=
  run r s [] accept.

(** One element of [FindAllStringSubmatch]: the whole match followed by
    the text of each of the [n] groups (empty when the group took no
    part). *)
Definition submatch (n : nat) (s rest : gostring) (c : captures) : list gostring :=
  consumed s rest :: map (capture c) (seq 1 n).

(** [FindAllStringSubmatch(s, -1)]: successive non-overlapping matches,
    each the leftmost one after the previous match.  [skip] counts the
    bytes still covered by the previous match. *)
Fixpoint find_all (r : re) (n : nat) (skip : nat) (s : gostring)
    : list (list gostring) :=
  match s with
  | [] =>
      match skip, match_here r s with
      | 0, Some (rest, c) => [submatch n s rest c]
      | _, _ => []
      end
  | _ :: s' =>
      match skip with
      | S skip' => find_all r n skip' s'
      | 0 =>
          match match_here r s with
          | Some (rest, c) =>
              submatch n s rest c
                :: find_all r n (length (consumed s rest) - 1) s'
          | None => find_all r n 0 s'
          end
      end
  end.

Definition FindAllStringSubmatch (r : re) (groups : nat) (s : gostring)
    : list (list gostring) :=
  find_all r groups 0 s.

End regexp.

(** ** The link extractor of the regex revisions *)

Definition is_quote (a : ascii) : bool :=
  Ascii.eqb a dquote || Ascii.eqb a squote.

Definition not_quote (a : ascii) : bool := negb (is_quote a).

(** The expression [(?:href|src)=Q(https?:\/\/|\/\/)?(N+)Q] of the
    source, where [Q] stands for its class of the two quote characters
    and [N] for the negated class; its parts first. *)

(** [(?:href|src)] *)
Definition re_attr : regexp.re :=
  regexp.Alt (regexp.Lit "href") (regexp.Lit "src").

(** [https?:\/\/|\/\/], the body of group 1 *)
Definition re_scheme : regexp.re :=
  regexp.Alt
    (regexp.Cat (regexp.Lit "http")
       (regexp.Cat (regexp.Opt (regexp.Lit "s")) (regexp.Lit "://")))
    (regexp.Lit "//").

(** [(N+)Q]: group 2 and the closing quote *)
Definition re_value : regexp.re :=
  regexp.Cat (regexp.Group 2 (regexp.PlusClass not_quote))
             (regexp.Class is_quote).

Definition urlRegex : regexp.re :=
  regexp.Cat re_attr
  (regexp.Cat (regexp.Lit "=")
  (regexp.Cat (regexp.Class is_quote)
  (regexp.Cat (regexp.Opt (regexp.Group 1 re_scheme)) re_value))).

(** [match[i]], with Go's zero value where the slice is too short (the
    loop guards every access with [len(match) >= 3]). *)
Definition nth_str (m : list gostring) (i : nat) : gostring := nth i m [].

(** The body of the [for _, match := range matches] loop up to the
    filter: the URL built from one match. *)
Definition fullURL_of (m : list gostring) : gostring :=
  let scheme := nth_str m 1 in
  let path := nth_str m 2 in
  if strings.HasPrefix scheme "http" then scheme ++ path
  else if bool_decide (scheme = "//") then "https://" ++ path
  else path.

(** The loop itself: [urls] is the slice built so far. *)
Fixpoint collect (matches : list (list gostring)) (urls : list gostring)
    : list gostring :=
  match matches with
  | [] => urls
  | m :: matches' =>
      if 3 <=? length m then
        let fullURL := fullURL_of m in
        if strings.Contains fullURL ".pdf"
        then collect matches' (urls ++ [fullURL])
        else collect matches' urls
      else collect matches' urls
  end.

(** [ExtractURLsFromHTMLFile] once the file is read: [content] is the
    text of the file. *)
Definition extractURLs (content : gostring) : list gostring :=
  let matches := regexp.FindAllStringSubmatch urlRegex 2 content in
  collect matches [].

(** ** Specification-side notions for the extractor *)

(** The language of an expression: the texts it can match. *)
Fixpoint denote (r : regexp.re) (t : gostring) : Prop :=
  match r with
  | regexp.Lit l => t = l
  | regexp.Class p => ∃ a, t = [a] ∧ p a = true
  | regexp.Cat r1 r2 => ∃ t1 t2, t = t1 ++ t2 ∧ denote r1 t1 ∧ denote r2 t2
  | regexp.Alt r1 r2 => denote r1 t ∨ denote r2 t
  | regexp.Opt r1 => t = [] ∨ denote r1 t
  | regexp.PlusClass p => t ≠ [] ∧ forallb p t = true
  | regexp.Group _ r1 => denote r1 t
  end.

(** How the expression splits an attribute value into groups 1 and 2:
    the scheme alternatives in their order of preference, each only when
    something is left for group 2. *)
Definition split_scheme (v : gostring) : gostring * gostring :=
  match strings.CutPrefix v "https://" with
  | Some (a :: w) => ("https://", a :: w)
  | _ =>
      match strings.CutPrefix v "http://" with
      | Some (a :: w) => ("http://", a :: w)
      | _ =>
          match strings.CutPrefix v "//" with
          | Some (a :: w) => ("//", a :: w)
          | _ => ([], v)
          end
      end
  end.

(** The groups the matcher records for that split. *)
Definition groups_of (sp : gostring * gostring) : regexp.captures :=
  match sp with
  | ([], w) => [(2, w)]
  | (sch, w) => [(2, w); (1, sch)]
  end.

(** An attribute assignment as the expression wants it. *)
Definition assignment (name : gostring) (q1 : ascii) (v : gostring) (q2 : ascii)
    : gostring :=
  name ++ "=" ++ q1 :: v ++ [q2].

Definition attr_name (name : gostring) : Prop := name = "href" ∨ name = "src".

(** A start tag with one attribute in double quotes. *)
Definition tag (name attr value : gostring) : gostring :=
  "<" ++ name ++ " " ++ attr ++ "=" ++ dq ++ value ++ dq ++ ">".

(** The document of the specification's extraction example: an absolute
    link, a protocol-relative image source whose extension is in upper
    case, a relative link, and a link to a page that is not a PDF. *)
Definition example_page : gostring :=
  tag "a" "href" "https://x.com/a.pdf" ++
  tag "img" "src" "//cdn.x.com/b.PDF?query=1" ++
  tag "a" "href" "/rel/c.pdf" ++
  tag "a" "href" "/about".

(** The same document with the extension of the image in lower case. *)
Definition example_page_lower : gostring :=
  tag "a" "href" "https://x.com/a.pdf" ++
  tag "img" "src" "//cdn.x.com/b.pdf?query=1" ++
  tag "a" "href" "/rel/c.pdf" ++
  tag "a" "href" "/about".

(** The filter of the extraction loop. *)
Definition is_pdf_url (u : gostring) : bool := strings.Contains u ".pdf".

(** ** Package [path] *)

Module path.

(** The elements of a slash-separated path, empty ones included. *)
Fixpoint split (p : gostring) : list gostring :=
  match p with
  | [] => [[]]
  | c :: p' =>
      if Ascii.eqb c "/" then [] :: split p'
      else
        match split p' with
        | e :: es => (c :: e) :: es
        | [] => [[c]]
        end
  end.

Fixpoint join (es : list gostring) : gostring :=
  match es with
  | [] => []
  | [e] => e
  | e :: es' => e ++ "/" ++ join es'
  end.

(** One element of the walk of [path.Clean]; [out] holds the elements
    written so far, last one first.  A [..] removes the last element
    unless there is none or it is itself a [..] that could not be
    resolved; then it is kept in a relative path and dropped in a rooted
    one. *)
Definition clean_step (rooted : bool) (out : list gostring) (e : gostring)
    : list gostring :=
  if bool_decide (e = "") || bool_decide (e = ".") then out
  else if bool_decide (e = "..") then
    match out with
    | top :: out' =>
        if bool_decide (top = "..") then e :: out else out'
    | [] => if rooted then out else [e]
    end
  else e :: out.

(** [path.Clean]: the shortest path naming the same place by purely
    lexical processing. *)
Definition Clean (p : gostring) : gostring :=
  match p with
  | [] => "."
  | c :: _ =>
      let rooted := Ascii.eqb c "/" in
      let out := fold_left (clean_step rooted) (split p) [] in
      match (if rooted then "/" else "") ++ join (rev out) with
      | [] => "."
      | r => r
      end
  end.

(** [path.Join]: the non-empty elements joined by slashes, cleaned; the
    empty string when there is none. *)
Definition Join (elem : list gostring) : gostring :=
  match List.filter (λ e, negb (bool_decide (e = ""))) elem with
  | [] => []
  | es => Clean (join es)
  end.

(** Strip trailing slashes. *)
Fixpoint trim_slashes (p : gostring) : gostring :=
  match p with
  | [] => []
  | c :: p' =>
      match trim_slashes p' with
      | [] => if Ascii.eqb c "/" then [] else [c]
      | r => c :: r
      end
  end.

(** [path.Base]: the last element of the path. *)
Definition Base (p : gostring) : gostring :=
  match p with
  | [] => "."
  | _ =>
      let p1 := trim_slashes p in
      let p2 := match strings.CutLast1 p1 "/" with
                | Some (_, after) => after
                | None => p1
                end in
      match p2 with
      | [] => "/"
      | _ => p2
      end
  end.

End path.

(** ** Package [net/url]

    [url.Parse] as far as it decides whether the URL is accepted and what
    its [Path] is.  Everything is in the library's order: the fragment is
    cut off first, then the scheme, the query, the authority, and the
    rest is the path, which is percent-decoded. *)

Module url.

Record URL : Type := mkURL {
  Scheme : gostring;
  Opaque : gostring;
  Host : gostring;
  Path : gostring;
  RawQuery : gostring;
  Fragment : gostring
}.

Inductive encoding := encodePath | encodeHost | encodeZone
                    | encodeUserPassword | encodeFragment.

Definition is_host_mode (mode : encoding) : bool :=
  match mode with encodeHost | encodeZone => true | _ => false end.

Definition ishex (c : ascii) : bool :=
  strings.is_digit c || strings.between "a" "f" c || strings.between "A" "F" c.

Definition unhex (c : ascii) : nat :=
  if strings.is_digit c then nat_of_ascii c - 48
  else if strings.between "a" "f" c then nat_of_ascii c - 97 + 10
  else if strings.between "A" "F" c then nat_of_ascii c - 65 + 10
  else 0.

(** [shouldEscape(c, encodeHost)]: the bytes a host may not hold
    literally. *)
Definition shouldEscapeHost (c : ascii) : bool :=
  negb (strings.is_alnum c
        || strings.one_of ("!$&'()*+,;=:[]<>" ++ dq) c
        || strings.one_of "-_.~" c).

(** [unescape]: percent-decoding, [None] for the library's
    [EscapeError] and [InvalidHostError]. *)
Fixpoint unescape (mode : encoding) (s : gostring) : option gostring :=
  match s with
  | [] => Some []
  | "%"%char :: h1 :: h2 :: s' =>
      let v := ascii_of_nat (unhex h1 * 16 + unhex h2) in
      let is25 := Ascii.eqb h1 "2" && Ascii.eqb h2 "5" in
      if negb (ishex h1 && ishex h2) then None
      else if match mode with
              | encodeHost => (unhex h1 <? 8) && negb is25
              | encodeZone =>
                  negb is25 && negb (Ascii.eqb v " ") && shouldEscapeHost v
              | _ => false
              end then None
      else option_map (cons v) (unescape mode s')
  | "%"%char :: _ => None
  | c :: s' =>
      if is_host_mode mode && strings.is_ascii c && shouldEscapeHost c
      then None
      else option_map (cons c) (unescape mode s')
  end.

(** [stringContainsCTLByte] *)
Definition isCTL (c : ascii) : bool :=
  (nat_of_ascii c <? 32) || (nat_of_ascii c =? 127).

(** [getScheme]: the scheme and what follows its colon; [None] for
    [missing protocol scheme]. *)
Fixpoint scan_scheme (first : bool) (s : gostring) : option (option (gostring * gostring)) :=
  match s with
  | [] => Some None
  | c :: s' =>
      if strings.is_lower c || strings.is_upper c then
        match scan_scheme false s' with
        | Some (Some (sch, rest)) => Some (Some (c :: sch, rest))
        | r => r
        end
      else if strings.is_digit c || strings.one_of "+-." c then
        if first then Some None
        else
          match scan_scheme false s' with
          | Some (Some (sch, rest)) => Some (Some (c :: sch, rest))
          | r => r
          end
      else if Ascii.eqb c ":" then
        if first then None else Some (Some ([], s'))
      else Some None
  end.

Definition getScheme (rawURL : gostring) : option (gostring * gostring) :=
  match scan_scheme true rawURL with
  | None => None
  | Some None => Some ([], rawURL)
  | Some (Some (sch, rest)) => Some (sch, rest)
  end.

Definition validOptionalPort (port : gostring) : bool :=
  match port with
  | [] => true
  | c :: digits => Ascii.eqb c ":" && forallb strings.is_digit digits
  end.

(** [parseHost], as in the releases of the library in which a host in
    square brackets is not inspected further.  Later releases accept a
    bracketed host only when it is an IPv6 literal and so reject some
    URLs that are accepted here; on every other URL the two agree. *)
Definition parseHost (host : gostring) : option gostring :=
  if strings.HasPrefix host "[" then
    match strings.CutLast1 host "]" with
    | None => None
    | Some (before, colonPort) =>
        if negb (validOptionalPort colonPort) then None
        else
          match strings.CutAt before "%25" with
          | Some (h1, zone) =>
              match unescape encodeHost h1,
                    unescape encodeZone ("%25" ++ zone),
                    unescape encodeHost ("]" ++ colonPort) with
              | Some a, Some b, Some c => Some (a ++ b ++ c)
              | _, _, _ => None
              end
          | None => unescape encodeHost host
          end
    end
  else
    match strings.CutLast1 host ":" with
    | Some (_, port) =>
        if validOptionalPort (":" ++ port) then unescape encodeHost host
        else None
    | None => unescape encodeHost host
    end.

Definition validUserinfo (s : gostring) : bool :=
  forallb (λ c, strings.is_alnum c || strings.one_of "-._:~!$&'()*+,;=%@" c) s.

(** [parseAuthority]: the host, when user information and host are
    both well formed. *)
Definition parseAuthority (authority : gostring) : option gostring :=
  match strings.CutLast1 authority "@" with
  | None => parseHost authority
  | Some (userinfo, hostport) =>
      match parseHost hostport with
      | None => None
      | Some host =>
          if negb (validUserinfo userinfo) then None
          else
            let '(username, password, _) := strings.Cut1 userinfo ":" in
            match unescape encodeUserPassword username,
                  unescape encodeUserPassword password with
            | Some _, Some _ => Some host
            | _, _ => None
            end
      end
  end.

(** [parse(rawURL, false)] *)
Definition parse (rawURL : gostring) : option URL :=
  if existsb isCTL rawURL then None
  else if bool_decide (rawURL = "*") then Some (mkURL [] [] [] "*" [] [])
  else
    match getScheme rawURL with
    | None => None
    | Some (scheme0, rest0) =>
        let scheme := map strings.lower_byte scheme0 in
        let '(rest, rawQuery, _) := strings.Cut1 rest0 "?" in
        let has_scheme := negb (bool_decide (scheme = [])) in
        if negb (strings.HasPrefix rest "/") && has_scheme then
          Some (mkURL scheme rest [] [] rawQuery [])
        else if negb (strings.HasPrefix rest "/")
                && strings.Contains (fst (fst (strings.Cut1 rest "/"))) ":"
        then None
        else
          let with_authority :=
            (has_scheme || negb (strings.HasPrefix rest "///"))
            && strings.HasPrefix rest "//" in
          let '(authority, rest1) :=
            if with_authority then
              let after := drop 2 rest in
              match strings.CutAt after "/" with
              | Some (a, r) => (a, "/" ++ r)
              | None => (after, [])
              end
            else ([], rest) in
          match (if with_authority then parseAuthority authority else Some []) with
          | None => None
          | Some host =>
              match unescape encodePath rest1 with
              | None => None
              | Some p => Some (mkURL scheme [] host p rawQuery [])
              end
          end
    end.

(** [url.Parse] *)
Definition Parse (rawURL : gostring) : option URL :=
  let '(u, frag, _) := strings.Cut1 rawURL "#" in
  match parse u with
  | None => None
  | Some url =>
      match frag with
      | [] => Some url
      | _ =>
          match unescape encodeFragment frag with
          | None => None
          | Some f =>
              Some (mkURL (Scheme url) (Opaque url) (Host url) (Path url)
                      (RawQuery url) f)
          end
      end
  end.

End url.

(** ** Deriving the local file name *)

(** [getFileNamesFromURLs] of the first revisions: the base name of the
    URL's path with spaces replaced. *)
Definition getFileNamesFromURLs (urls : gostring) : gostring :=
  match url.Parse urls with
  | None => []
  | Some u =>
      let file := path.Base (url.Path u) in
      strings.ReplaceAll1 file " " "_"
  end.

(** The last revision of [main.go]. *)
Module last.
Section Unicode.
(** The library's case mapping of text with multi-byte runes. *)
Variable unicode_lower : gostring → gostring.

(** [getFileNamesFromURLs] of the last revision: the name is
    lower-cased as well. *)
Definition getFileNamesFromURLs (urls : gostring) : gostring :=
  match url.Parse urls with
  | None => []
  | Some u =>
      let file := path.Base (url.Path u) in
      let file := strings.ReplaceAll1 file " " "_" in
      strings.ToLower unicode_lower file
  end.
End Unicode.
End last.

(** *** Specification-side notions for file names *)

(** The last path segment: what follows the last slash of the path. *)
Definition last_segment (p : gostring) : gostring :=
  match strings.CutLast1 p "/" with
  | Some (_, after) => after
  | None => p
  end.

(** The file name as the specification words it: the last segment of
    the URL's path, spaces replaced, lower-cased (nothing for a URL the
    library rejects). *)
Definition spec_filename (unicode_lower : gostring → gostring) (rawURL : gostring)
    : gostring :=
  match url.Parse rawURL with
  | None => []
  | Some u =>
      strings.ToLower unicode_lower
        (strings.ReplaceAll1 (last_segment (url.Path u)) " " "_")
  end.

(** A URL followed by an optional query string and an optional
    fragment. *)
Definition with_query_fragment (u : gostring) (query fragment : option gostring)
    : gostring :=
  u ++ match query with Some q => "?" ++ q | None => [] end
    ++ match fragment with Some f => "#" ++ f | None => [] end.

(** A query string and a fragment the library accepts after a URL: no
    control byte and no [#] in the query, well-formed escapes in the
    fragment. *)
Definition suffix_ok (query fragment : option gostring) : bool :=
  match query with
  | Some q => negb (strings.one_of q "#") && negb (existsb url.isCTL q)
  | None => true
  end &&
  match fragment with
  | Some f =>
      match url.unescape url.encodeFragment f with
      | Some _ => true
      | None => false
      end
  | None => true
  end.

(** A byte that can neither continue nor end a scheme. *)
Definition ends_scheme_scan (c : ascii) : bool :=
  negb (strings.is_lower c || strings.is_upper c || strings.is_digit c
        || strings.one_of "+-." c || Ascii.eqb c ":").

(** The URL of the specification's file-name example. *)
Definition example_url : gostring := "https://example.com/docs/My File.pdf?v=2".

(** ** The world the program runs in

    The file system is a finite map from cleaned path names to nodes.
    Names are resolved as the kernel does, element by element from the
    root or from the working directory; the root, the working directory
    and the directories above it always exist; symbolic links and
    permissions are not modelled.  The network answers a GET with a
    response or a transport error; the answer may depend on everything
    that happened before.  A response body carries its full content and,
    when the transfer is cut, the number of bytes that reach the reader
    before the error. *)

Inductive Node : Type :=
| File (content : gostring)
| Dir.

Abbreviation FS := (gmap gostring Node).

Record Body : Type := mkBody {
  content : gostring;
  cut_after : option nat
}.

Record Response : Type := mkResponse {
  StatusCode : nat;
  body : Body
}.

(** The errors of the program, one constructor per message. *)
Inductive error : Type :=
| ErrTransport                    (* the error of [http.Get] *)
| ErrDownloading                  (* "error downloading PDF: %w" *)
| ErrStatus (code : nat)          (* "status code error: %d %s" *)
| ErrBadStatus (code : nat)       (* "bad status: %s" *)
| ErrCreatingFolder               (* "error creating folder: %w" *)
| ErrCreatingFile                 (* "error creating file: %w" *)
| ErrSaving                       (* "error saving PDF: %w" *)
| ErrReadFile                     (* "could not read file: %w" *)
| ErrNotExist                     (* ENOENT *)
| ErrNotDir                       (* ENOTDIR *)
| ErrExist                        (* EEXIST *)
| ErrIsDir                        (* EISDIR *)
| ErrUnexpectedEOF.               (* a body cut before its end *)

(** The lines the program logs. *)
Inductive logline : Type :=
| LogSkipping (fullPath : gostring)        (* "File %s already exists, skipping download." *)
| LogFailed (link : gostring) (err : error) (* "Failed to download %s: %v" *)
| LogDownloaded (link : gostring)          (* "Downloaded %s successfully" *)
| LogExtractError (err : error)            (* "Error extracting URLs: %v" *)
| LogError (err : error).                  (* [log.Println(err)] *)

(** What the program does to the outside, in order. *)
Inductive event : Type :=
| EvGet (url : gostring)
| EvMkdir (name : gostring)
| EvMkdirAll (name : gostring)
| EvCreate (name : gostring)
| EvWrite (name : gostring) (data : gostring)
| EvLog (line : logline).

Record World : Type := mkWorld {
  fs : FS;
  trace : list event
}.

(** The network: the answer to a GET after the given history. *)
Definition Network : Type := list event → gostring → option Response.

(** *** Path resolution *)

Module os.

(** Names that are directories whatever the map holds: the root, the
    working directory and the directories above it. *)
Definition always_dir (p : gostring) : bool :=
  bool_decide (p = "/") || bool_decide (p = ".")
  || forallb (λ e, bool_decide (e = "..")) (path.split p).

(** The node a cleaned name denotes. *)
Definition node_at (m : FS) (p : gostring) : option Node :=
  if always_dir p then Some Dir else m !! p.

(** The directories the kernel passes through when it resolves [name]:
    one for each slash of the name, in order, namely the place the text
    before that slash names.  The name is resolved element by element
    and not cleaned first, so [missing/../PDFs] passes through
    [missing]; the place a resolved prefix names is its [path.Clean],
    since there are no symbolic links. *)
Definition visited (name : gostring) : list gostring :=
  let es := path.split name in
  map (λ n, match path.join (take n es) with [] => "/" | d => path.Clean d end)
      (seq 1 (length es - 1)).

(** Walking down the directories: the error of the first one that is
    missing or not a directory. *)
Fixpoint walk (m : FS) (dirs : list gostring) : option error :=
  match dirs with
  | [] => None
  | d :: dirs' =>
      match node_at m d with
      | Some Dir => walk m dirs'
      | Some (File _) => Some ErrNotDir
      | None => Some ErrNotExist
      end
  end.

(** [os.Stat] *)
Definition Stat (m : FS) (name : gostring) : Node + error :=
  match name with
  | [] => inr ErrNotExist
  | _ =>
      let p := path.Clean name in
      match walk m (visited name) with
      | Some e => inr e
      | None =>
          match node_at m p with
          | Some n => inl n
          | None => inr ErrNotExist
          end
      end
  end.

(** [os.IsNotExist] of the error of a [Stat] *)
Definition IsNotExist (r : Node + error) : bool :=
  match r with
  | inr ErrNotExist => true
  | _ => false
  end.

(** [os.Mkdir]: the parent must exist, the name must be free. *)
Definition Mkdir (m : FS) (name : gostring) : FS + error :=
  match name with
  | [] => inr ErrNotExist
  | _ =>
      let p := path.Clean name in
      match walk m (visited name) with
      | Some e => inr e
      | None =>
          match node_at m p with
          | Some _ => inr ErrExist
          | None => inl (<[p := Dir]> m)
          end
      end
  end.

(** The slow path of [os.MkdirAll]: [Mkdir] for every place on the way
    that is missing, outermost first; the error of [Mkdir] when a place
    is taken by a file. *)
Fixpoint mkdir_chain (m : FS) (dirs : list gostring) : FS + error :=
  match dirs with
  | [] => inl m
  | d :: dirs' =>
      match node_at m d with
      | Some Dir => mkdir_chain m dirs'
      | Some (File _) => inr ErrExist
      | None => mkdir_chain (<[d := Dir]> m) dirs'
      end
  end.

(** [os.MkdirAll]: nothing to do when [Stat] finds a directory, an
    error when it finds a file; otherwise the directory and every
    missing directory on the way to it are created. *)
Definition MkdirAll (m : FS) (name : gostring) : FS + error :=
  match Stat m name with
  | inl Dir => inl m
  | inl (File _) => inr ErrNotDir
  | inr _ =>
      match name with
      | [] => inr ErrNotExist
      | _ => mkdir_chain m (visited name ++ [path.Clean name])
      end
  end.

(** [os.Create]: the file is created empty, or truncated. *)
Definition Create (m : FS) (name : gostring) : FS + error :=
  match name with
  | [] => inr ErrNotExist
  | _ =>
      let p := path.Clean name in
      match walk m (visited name) with
      | Some e => inr e
      | None =>
          match node_at m p with
          | Some Dir => inr ErrIsDir
          | _ => inl (<[p := File []]> m)
          end
      end
  end.

(** [ioutil.ReadFile] *)
Definition ReadFile (m : FS) (name : gostring) : gostring + error :=
  match Stat m name with
  | inl (File data) => inl data
  | inl Dir => inr ErrIsDir
  | inr e => inr e
  end.

End os.

(** [io.Copy] of a body: the bytes that arrive, and the error when the
    transfer is cut. *)
Definition received (b : Body) : gostring * option error :=
  match cut_after b with
  | None => (content b, None)
  | Some n => (take n (content b), Some ErrUnexpectedEOF)
  end.

(** *** The monad of the program: state passing over the world *)

Definition M (A : Type) : Type := World → A * World.

Definition ret {A} (a : A) : M A := λ w, (a, w).

Definition bind {A B} (m : M A) (k : A → M B) : M B :=
  λ w, let '(a, w') := m w in k a w'.

Declare Scope prog_scope.
Delimit Scope prog_scope with prog.
Notation "'do' x <- m ; k" := (bind m (λ x, k))
  (at level 10, x name, m at level 100, k at level 200,
   format "'[v' 'do'  x  <-  m ; '/' k ']'") : prog_scope.
Notation "m ;; k" := (bind m (λ _, k))
  (at level 100, k at level 200, right associativity) : prog_scope.
Open Scope prog_scope.

Definition emit (e : event) : M unit :=
  λ w, (tt, mkWorld (fs w) (trace w ++ [e])).

Definition get_fs : M FS := λ w, (fs w, w).

Definition put_fs (m : FS) : M unit := λ w, (tt, mkWorld m (trace w)).

(** An operation that changes the file system when it succeeds. *)
Definition fs_op (op : FS → FS + error) : M (option error) :=
  do m <- get_fs;
  match op m with
  | inl m' => put_fs m' ;; ret None
  | inr e => ret (Some e)
  end.

Definition log_Printf (line : logline) : M unit := emit (EvLog line).

(** ** The program *)

Definition is_dir (n : Node) : bool :=
  match n with Dir => true | File _ => false end.

(** [fileExists]: the name exists and is not a directory. *)
Definition fileExists (filename : gostring) : M bool :=
  do m <- get_fs;
  match os.Stat m filename with
  | inr _ => ret false
  | inl info => ret (negb (is_dir info))
  end.

(** [os.Mkdir], [os.MkdirAll] and [os.Create] as the program calls
    them. *)
Definition os_Mkdir (name : gostring) : M (option error) :=
  emit (EvMkdir name) ;; fs_op (λ m, os.Mkdir m name).

Definition os_MkdirAll (name : gostring) : M (option error) :=
  emit (EvMkdirAll name) ;; fs_op (λ m, os.MkdirAll m name).

Definition os_Create (name : gostring) : M (option error) :=
  emit (EvCreate name) ;; fs_op (λ m, os.Create m name).

(** [io.Copy(out, resp.Body)] into the open file [name]: the bytes that
    arrive are in the file afterwards, whether the copy ends well or
    not. *)
Definition io_Copy (name : gostring) (b : Body) : M (option error) :=
  let '(data, err) := received b in
  emit (EvWrite name data) ;;
  do m <- get_fs;
  put_fs (<[path.Clean name := File data]> m) ;;
  ret err.

(** [createDirectory] *)
Definition createDirectory (name : gostring) : M unit :=
  do err <- os_Mkdir name;
  match err with
  | Some e => log_Printf (LogError e)
  | None => ret tt
  end.

(** [ExtractURLsFromHTMLFile] *)
Definition ExtractURLsFromHTMLFile (filePath : gostring)
    : M (list gostring * option error) :=
  do m <- get_fs;
  match os.ReadFile m filePath with
  | inr _ => ret ([], Some ErrReadFile)
  | inl data => ret (extractURLs data, None)
  end.

Section Program.
Variable net : Network.

(** [http.Get] *)
Definition http_Get (u : gostring) : M (option Response) :=
  λ w, (net (trace w) u, mkWorld (fs w) (trace w ++ [EvGet u])).

(** [downloadFileUsingURLandFilePath] *)
Definition downloadFileUsingURLandFilePath (u filepath : gostring)
    : M (option error) :=
  do r <- http_Get u;
  match r with
  | None => ret (Some ErrTransport)
  | Some resp =>
      if negb (StatusCode resp =? 200)
      then ret (Some (ErrBadStatus (StatusCode resp)))
      else
        do err <- os_Create filepath;
        match err with
        | Some e => ret (Some e)
        | None => io_Copy filepath (body resp)
        end
  end.

(** [downloadPDF] of the first revisions *)
Definition downloadPDF (pdfURL folder : gostring) : M (option error) :=
  let fileName := getFileNamesFromURLs pdfURL in
  let fullPath := path.Join [folder; fileName] in
  do found <- fileExists fullPath;
  if found then
    log_Printf (LogSkipping fullPath) ;;
    ret None
  else
    do r <- http_Get pdfURL;
    match r with
    | None => ret (Some ErrDownloading)
    | Some resp =>
        if negb (StatusCode resp =? 200)
        then ret (Some (ErrStatus (StatusCode resp)))
        else
          do m <- get_fs;
          do err <- (if os.IsNotExist (os.Stat m folder)
                     then os_MkdirAll folder
                     else ret None);
          match err with
          | Some _ => ret (Some ErrCreatingFolder)
          | None =>
              do err <- os_Create fullPath;
              match err with
              | Some _ => ret (Some ErrCreatingFile)
              | None =>
                  do err <- io_Copy fullPath (body resp);
                  match err with
                  | Some _ => ret (Some ErrSaving)
                  | None => ret None
                  end
              end
          end
    end.

(** The [for _, link := range links] loop of [main]. *)
Fixpoint download_each (links : list gostring) (folderName : gostring)
    : M unit :=
  match links with
  | [] => ret tt
  | link :: links' =>
      do err <- downloadPDF link folderName;
      match err with
      | Some e => log_Printf (LogFailed link e)
      | None => log_Printf (LogDownloaded link)
      end ;;
      download_each links' folderName
  end.

Definition folderName : gostring := "PDFs".
Definition urlFromChemicalGuys : gostring :=
  "https://www.chemicalguys.com/pages/material-safety-data-sheets".

(** [main] of the regex revisions *)
Definition main : M unit :=
  createDirectory folderName ;;
  let localURLFilePath := path.Join ["chemical_guys_sds_page.html"] in
  downloadFileUsingURLandFilePath urlFromChemicalGuys localURLFilePath ;;
  do r <- ExtractURLsFromHTMLFile localURLFilePath;
  match snd r with
  | Some e => log_Printf (LogExtractError e)
  | None => ret tt
  end ;;
  download_each (fst r) folderName.

(** *** The last revision *)

(** [directoryExists] *)
Definition directoryExists (name : gostring) : M bool :=
  do m <- get_fs;
  match os.Stat m name with
  | inr _ => ret false
  | inl directory => ret (is_dir directory)
  end.

Section LastRevision.
Variable unicode_lower : gostring → gostring.

(** [downloadPDF] of the last revision *)
Definition downloadPDF_last (pdfURL folder : gostring) : M (option error) :=
  let fileName := last.getFileNamesFromURLs unicode_lower pdfURL in
  let fullPath := path.Join [folder; fileName] in
  do found <- fileExists fullPath;
  if found then
    log_Printf (LogSkipping fullPath) ;;
    ret None
  else
    do r <- http_Get pdfURL;
    match r with
    | None => ret (Some ErrDownloading)
    | Some resp =>
        if negb (StatusCode resp =? 200)
        then ret (Some (ErrStatus (StatusCode resp)))
        else
          do isdir <- directoryExists folder;
          do err <- (if negb isdir then os_MkdirAll folder else ret None);
          match err with
          | Some _ => ret (Some ErrCreatingFolder)
          | None =>
              do err <- os_Create fullPath;
              match err with
              | Some _ => ret (Some ErrCreatingFile)
              | None =>
                  do err <- io_Copy fullPath (body resp);
                  match err with
                  | Some _ => ret (Some ErrSaving)
                  | None => ret None
                  end
              end
          end
    end.
End LastRevision.
End Program.

(** *** Specification-side notions for the downloader *)

(** The destination of a download, as [downloadPDF] computes it. *)
Definition destination (pdfURL folder : gostring) : gostring :=
  path.Join [folder; getFileNamesFromURLs pdfURL].

(** A regular file is at [name] already. *)
Definition file_present (m : FS) (name : gostring) : Prop :=
  ∃ data, os.Stat m name = inl (File data).

(** The network calls of a history. *)
Definition gets (evs : list event) : list gostring :=
  omap (λ e, match e with EvGet u => Some u | _ => None end) evs.

(** The per-link results [main] logs, in order. *)
Definition results_logged (evs : list event) : list (gostring * option error) :=
  omap (λ e, match e with
             | EvLog (LogFailed link err) => Some (link, Some err)
             | EvLog (LogDownloaded link) => Some (link, None)
             | _ => None
             end) evs.

(** [downloadPDF] after a 200 response for a file that is not there yet:
    the folder step ([missing] tells whether [MkdirAll] is called), the
    creation of the file and the copy of the body. *)
Definition fetch_and_store (missing : bool) (pdfURL folder dest : gostring)
    (resp : Response) (w : World) : option error * World :=
  let t := trace w ++ EvGet pdfURL
                       :: (if missing then [EvMkdirAll folder] else []) in
  match (if missing then os.MkdirAll (fs w) folder else inl (fs w)) with
  | inr _ => (Some ErrCreatingFolder, mkWorld (fs w) t)
  | inl m1 =>
      match os.Create m1 dest with
      | inr _ => (Some ErrCreatingFile, mkWorld m1 (t ++ [EvCreate dest]))
      | inl m2 =>
          let data := fst (received (body resp)) in
          (match snd (received (body resp)) with
           | Some _ => Some ErrSaving
           | None => None
           end,
           mkWorld (<[path.Clean dest := File data]> m2)
             (t ++ [EvCreate dest; EvWrite dest data]))
      end
  end.

(** The destination in the last revision. *)
Definition destination_last (unicode_lower : gostring → gostring)
    (pdfURL folder : gostring) : gostring :=
  path.Join [folder; last.getFileNamesFromURLs unicode_lower pdfURL].

(** *** Example worlds *)

Definition pdf_a : gostring := "https://x.com/a.pdf".
Definition pdf_b : gostring := "https://x.com/b.pdf".
Definition pdf_c : gostring := "https://x.com/c.pdf".
Definition pdf_d : gostring := "https://x.com/d.pdf".

(** A network that serves [pdf_a] and [pdf_c], answers 404 for [pdf_b],
    cuts the body of [pdf_d] after three bytes and cannot reach any other
    server. *)
Definition net_example : Network := λ _ u,
  if bool_decide (u = pdf_a) then Some (mkResponse 200 (mkBody "%PDF-a" None))
  else if bool_decide (u = pdf_b) then Some (mkResponse 404 (mkBody "Not Found" None))
  else if bool_decide (u = pdf_c) then Some (mkResponse 200 (mkBody "%PDF-c" None))
  else if bool_decide (u = pdf_d) then Some (mkResponse 200 (mkBody "%PDF-d" (Some 3)))
  else None.

(** An empty working directory, and one that holds [PDFs/a.pdf]. *)
Definition w_empty : World := mkWorld ∅ [].

Definition w_with_a : World :=
  mkWorld (<["PDFs/a.pdf" := File "old"]> (<["PDFs" := Dir]> ∅)) [].

(** ** The goquery revision

    [goquery.NewDocumentFromReader] parses the page into a tree; the tree
    is the data here.  [html.render] is the text the library's [Render]
    writes for a tree: attribute values and text are escaped, so that
    parsing the text decodes them back; it stands for the page a tree is
    parsed from.  (The library stops writing after a [plaintext] element;
    that element is treated like any other here.) *)

Module html.

#[warnings="-register-all"]
Inductive node : Type :=
| Text (s : gostring)
| Element (tag : gostring) (attrs : list (gostring * gostring))
          (children : list node).

(** Elements that have no end tag. *)
Definition void (tag : gostring) : bool :=
  bool_decide (tag ∈ (["area"; "base"; "br"; "col"; "embed"; "hr"; "img";
                       "input"; "keygen"; "link"; "meta"; "param"; "source";
                       "track"; "wbr"]
                      : list gostring)).

(** Elements whose text is written as it is. *)
Definition raw_text (tag : gostring) : bool :=
  bool_decide (tag ∈ (["iframe"; "noembed"; "noframes"; "noscript";
                       "script"; "style"; "xmp"]
                      : list gostring)).

(** Elements after whose start tag a leading newline would be lost. *)
Definition eats_newline (tag : gostring) : bool :=
  bool_decide (tag ∈ (["pre"; "listing"; "textarea"] : list gostring)).

(** [escape]: the six characters that are written as character
    references. *)
Definition escape_byte (c : ascii) : gostring :=
  if Ascii.eqb c "&" then "&amp;"
  else if Ascii.eqb c squote then "&#39;"
  else if Ascii.eqb c "<" then "&lt;"
  else if Ascii.eqb c ">" then "&gt;"
  else if Ascii.eqb c dquote then "&#34;"
  else if Ascii.eqb c "013" then "&#13;"
  else [c].

Definition escape (s : gostring) : gostring := concat (map escape_byte s).

Definition render_attr (a : gostring * gostring) : gostring :=
  " " ++ fst a ++ "=" ++ dq ++ escape (snd a) ++ dq.

Fixpoint render (n : node) : gostring :=
  match n with
  | Text s => escape s
  | Element t attrs children =>
      "<" ++ t ++ concat (map render_attr attrs) ++
      (if void t then "/>"
       else
         ">" ++
         (match children with
          | Text (c :: _) :: _ =>
              if Ascii.eqb c "010" && eats_newline t then ["010"%char] else []
          | _ => []
          end) ++
         (fix render_all (ns : list node) : gostring :=
            match ns with
            | [] => []
            | c :: ns' =>
                match c with
                | Text s => if raw_text t then s else escape s
                | Element _ _ _ => render c
                end ++ render_all ns'
            end) children ++
         "</" ++ t ++ ">")
  end.

Definition render_document (doc : list node) : gostring :=
  concat (map render doc).

(** The elements of a tree in document order, each with its
    attributes. *)
Fixpoint elements (n : node) : list (gostring * list (gostring * gostring)) :=
  match n with
  | Text _ => []
  | Element t attrs children =>
      (t, attrs) ::
      (fix elements_all (ns : list node) :=
         match ns with
         | [] => []
         | c :: ns' => elements c ++ elements_all ns'
         end) children
  end.

(** [doc.Find(tag)]: the selection of the elements with that name. *)
Definition Find (doc : list node) (tag : gostring)
    : list (list (gostring * gostring)) :=
  map snd (List.filter (λ e, bool_decide (fst e = tag))
                       (concat (map elements doc))).

(** [s.Attr(name)] *)
Fixpoint Attr (attrs : list (gostring * gostring)) (name : gostring)
    : option gostring :=
  match attrs with
  | [] => None
  | (k, v) :: attrs' => if bool_decide (k = name) then Some v else Attr attrs' name
  end.

End html.

Module goquery_rev.
Section Unicode.
Variable unicode_lower : gostring → gostring.

Definition base : gostring := "https://www.chemicalguys.com".

(** The function passed to [Each]: [pdfLinks] is the slice built so
    far. *)
Definition each (pdfLinks : list gostring) (s : list (gostring * gostring))
    : list gostring :=
  match html.Attr s "href" with
  | Some href =>
      if strings.Contains (strings.ToLower unicode_lower href) ".pdf" then
        let href := if strings.HasPrefix href "//" then "https:" ++ href
                    else href in
        let href := if strings.HasPrefix href "/" then base ++ href
                    else href in
        if strings.HasPrefix href "http://" || strings.HasPrefix href "https://"
        then pdfLinks ++ [href]
        else pdfLinks
      else pdfLinks
  | None => pdfLinks
  end.

(** [getSDSLinks] once the page is fetched and parsed into [doc]. *)
Definition getSDSLinks (doc : list html.node) : list gostring :=
  fold_left each (html.Find doc "a") [].
End Unicode.
End goquery_rev.

(** *** Specification-side notions for comparing the extractors *)

(** A document that consists of anchors with the given [href]s. *)
Definition anchor (href : gostring) : html.node :=
  html.Element "a" [("href" : gostring, href)] [].

Definition anchors (hrefs : list gostring) : list html.node := map anchor hrefs.










(** A site whose SDS page links to [pdf_a], [pdf_b] and [pdf_c]; the
    rest of the network is [net_example]. *)
Definition sds_page : gostring :=
  html.render_document (anchors [pdf_a; pdf_b; pdf_c]).

Definition net_site : Network := λ history u,
  if bool_decide (u = urlFromChemicalGuys)
  then Some (mkResponse 200 (mkBody sds_page None))
  else net_example history u.

(** ** Further specification-side notions *)

(** A text occurs in [content] as an attribute assignment the expression
    accepts, with value [v]. *)
Definition assigned_in (content v : gostring) : Prop :=
  ∃ l name q1 q2 r,
    attr_name name ∧ is_quote q1 = true ∧ is_quote q2 = true ∧
    content = l ++ assignment name q1 v q2 ++ r.

(** How the goquery revision turns the [href] of an anchor into a link:
    as it stands, with [https:] in front of a protocol-relative one, or
    with the site in front of a path. *)
Definition resolved_from (href u : gostring) : Prop :=
  u = href ∨
  (u = "https:" ++ href ∧ strings.HasPrefix href "//" = true) ∨
  (u = goquery_rev.base ++ href ∧ strings.HasPrefix href "/" = true ∧
   strings.HasPrefix href "//" = false).

Definition is_absolute (u : gostring) : bool :=
  strings.HasPrefix u "http://" || strings.HasPrefix u "https://".

(** Nothing that was there is lost: directories stay directories and
    regular files stay regular files (their content may change). *)
Definition fs_keeps (m m' : FS) : Prop :=
  (∀ q, m !! q = Some Dir → m' !! q = Some Dir) ∧
  (∀ q d, m !! q = Some (File d) → ∃ d', m' !! q = Some (File d')).

(** The local path of the saved page. *)
Definition localURLFilePath : gostring := path.Join ["chemical_guys_sds_page.html"].

(** A world with a folder [PDFs] that is a regular file. *)
Definition w_folder_is_file : World :=
  mkWorld (<["PDFs" := File "not a folder"]> ∅) [].

(** The three ways a call of [downloadPDF] for [pdfURL] with destination
    [dest] ends, in either revision: the file is there and the call is
    skipped; the GET fails or is not answered 200; or the answer is stored
    by [fetch_and_store]. *)
Definition download_outcome (net : Network) (pdfURL folder dest : gostring)
    (w : World) (r : option error * World) : Prop :=
  (file_present (fs w) dest ∧
   r = (None, mkWorld (fs w) (trace w ++ [EvLog (LogSkipping dest)]))) ∨
  (¬ file_present (fs w) dest ∧
   ∃ e, e ≠ ErrSaving ∧
        r = (Some e, mkWorld (fs w) (trace w ++ [EvGet pdfURL]))) ∨
  (¬ file_present (fs w) dest ∧
   ∃ resp missing,
     net (trace w) pdfURL = Some resp ∧ StatusCode resp = 200 ∧
     r = fetch_and_store missing pdfURL folder dest resp w).

(** A working directory that holds a page saved by an earlier run, with
    one link, and nothing else. *)
Definition w_stale_page : World :=
  mkWorld (<[localURLFilePath := File (html.render_document (anchors [pdf_a]))]> ∅) [].
(** ** Facts about [strings] *)

Lemma CutPrefix_Some (s p s' : gostring) :
  strings.CutPrefix s p = Some s' ↔ s = p ++ s'.
Proof.
  revert s. induction p as [|a p IH]; intros s; simpl.
  - split; [intros [= ->]; reflexivity | intros ->; reflexivity].
  - destruct s as [|c s]; [split; [discriminate | intros [=]] |].
    destruct (Ascii.eqb_spec a c) as [->|Hne].
    + rewrite IH. split; [intros ->; reflexivity | intros [= ->]; reflexivity].
    + split; [discriminate | intros [= E _]; congruence].
Qed.

Lemma CutPrefix_app (p s : gostring) : strings.CutPrefix (p ++ s) p = Some s.
Proof. apply CutPrefix_Some. reflexivity. Qed.

Lemma HasPrefix_true (s p : gostring) :
  strings.HasPrefix s p = true ↔ ∃ s', s = p ++ s'.
Proof.
  unfold strings.HasPrefix.
  destruct (strings.CutPrefix s p) as [s'|] eqn:E.
  - apply CutPrefix_Some in E. split; eauto.
  - split; [discriminate | intros [s' ->]].
    rewrite CutPrefix_app in E. discriminate.
Qed.

Lemma Contains_true (s sub : gostring) :
  strings.Contains s sub = true ↔ ∃ l r, s = l ++ sub ++ r.
Proof.
  induction s as [|c s IH]; simpl.
  - rewrite orb_false_r, HasPrefix_true. split.
    + intros [s' E]. exists [], s'. exact E.
    + intros (l & r & E). destruct l as [|? ?]; [eauto | discriminate].
  - rewrite orb_true_iff, HasPrefix_true, IH. split.
    + intros [[s' E] | (l & r & E)].
      * exists [], s'. exact E.
      * exists (c :: l), r. simpl. congruence.
    + intros (l & r & E). destruct l as [|c' l]; simpl in E.
      * left. eauto.
      * right. injection E as _ E. eauto.
Qed.

(** ** Facts about the matcher *)

Section MatcherFacts.
Context {R : Type}.
Implicit Types (p : ascii → bool) (K : gostring → option R).

(** A greedy class repetition that succeeds stopped after a non-empty
    run of class bytes. *)
Lemma plus_class_Some p s K x :
  regexp.plus_class p s K = Some x →
  ∃ v t, s = v ++ t ∧ v ≠ [] ∧ forallb p v = true ∧ K t = Some x.
Proof.
  revert x. induction s as [|a s IH]; intros x; simpl; [discriminate |].
  destruct (p a) eqn:Hp; [| discriminate].
  destruct (regexp.plus_class p s K) as [y|] eqn:E.
  - intros [= ->]. destruct (IH _ eq_refl) as (v & t & -> & _ & Hv & HK).
    exists (a :: v), t. simpl. rewrite Hp, Hv. done.
  - intros HK. exists [a], s. simpl. rewrite Hp. done.
Qed.

(** When what follows can only succeed right after the whole run, the
    repetition takes the whole run. *)
Lemma plus_class_greedy p v t K :
  v ≠ [] → forallb p v = true →
  (∀ v1 v2, v = v1 ++ v2 → v1 ≠ [] → v2 ≠ [] → K (v2 ++ t) = None) →
  match t with a :: _ => p a = false | [] => True end →
  regexp.plus_class p (v ++ t) K = K t.
Proof.
  intros Hne Hall Hshort Ht. induction v as [|a v IH]; [done |].
  simpl in Hall. apply andb_true_iff in Hall as [Ha Hv].
  simpl. rewrite Ha. destruct v as [|b v].
  - simpl. destruct t as [|c t]; simpl; [done |]. rewrite Ht.
    destruct (K (c :: t)); done.
  - rewrite IH; [| done | done |].
    + destruct (K t) eqn:E; [done |].
      apply (Hshort [a] (b :: v)); done.
    + intros v1 v2 E Hv1 Hv2. apply (Hshort (a :: v1) v2); [| done | done].
      simpl. congruence.
Qed.
End MatcherFacts.


(** The matcher is sound for the language: whatever it consumes before
    handing over to its continuation is a text of the expression. *)
Lemma run_sound {R : Type} (r : regexp.re) :
  ∀ s c (K : gostring → regexp.captures → option R) x,
    regexp.run r s c K = Some x →
    ∃ t s' c', s = t ++ s' ∧ denote r t ∧ K s' c' = Some x.
Proof.
  induction r as [l|p|r1 IH1 r2 IH2|r1 IH1 r2 IH2|r1 IH1|p|i r1 IH1];
    intros s c K x; simpl.
  - destruct (strings.CutPrefix s l) as [s'|] eqn:E; [| discriminate].
    apply CutPrefix_Some in E. intros HK. exists l, s', c. done.
  - destruct s as [|a s]; [discriminate |].
    destruct (p a) eqn:Hp; [| discriminate].
    intros HK. exists [a], s, c. split; [done |]. split; [| done]. eauto.
  - intros H. apply IH1 in H as (t1 & s1 & c1 & -> & H1 & H).
    apply IH2 in H as (t2 & s2 & c2 & -> & H2 & H).
    exists (t1 ++ t2), s2, c2. rewrite <- app_assoc. split; [done |].
    split; [| done]. exists t1, t2. done.
  - destruct (regexp.run r1 s c K) as [y|] eqn:E.
    + intros [= ->]. apply IH1 in E as (t & s' & c' & -> & H1 & H).
      exists t, s', c'. auto.
    + intros H. apply IH2 in H as (t & s' & c' & -> & H2 & H).
      exists t, s', c'. auto.
  - destruct (regexp.run r1 s c K) as [y|] eqn:E.
    + intros [= ->]. apply IH1 in E as (t & s' & c' & -> & H1 & H).
      exists t, s', c'. auto.
    + intros H. exists [], s, c. auto.
  - intros H. apply plus_class_Some in H as (v & t & -> & Hne & Hv & H).
    exists v, t, c. done.
  - intros H. apply IH1 in H as (t & s' & c' & -> & H1 & H).
    exists t, s', ((i, regexp.consumed (t ++ s') s') :: c'). done.
Qed.

Lemma consumed_app (t s' : gostring) : regexp.consumed (t ++ s') s' = t.
Proof.
  unfold regexp.consumed. rewrite length_app.
  replace (length t + length s' - length s') with (length t) by lia.
  apply take_app_length.
Qed.

Lemma consumed_cons (a : ascii) (s s' : gostring) :
  length s' ≤ length s →
  regexp.consumed (a :: s) s' = a :: regexp.consumed s s'.
Proof.
  unfold regexp.consumed. intros H. simpl length.
  replace (S (length s) - length s') with (S (length s - length s')) by lia.
  reflexivity.
Qed.

Lemma consumed_same (s : gostring) : regexp.consumed s s = [].
Proof. unfold regexp.consumed. rewrite Nat.sub_diag. reflexivity. Qed.

Arguments regexp.consumed : simpl never.

(** ** What the expression of the extractor matches *)

Lemma is_quote_cases (q : ascii) :
  is_quote q = true → q = dquote ∨ q = squote.
Proof.
  unfold is_quote. rewrite orb_true_iff.
  intros [H|H]; apply Ascii.eqb_eq in H; auto.
Qed.

Lemma not_quote_head (w t : gostring) (q : ascii) :
  forallb not_quote w = true → is_quote q = true →
  match w ++ q :: t with
  | a :: _ => is_quote a = true ↔ w = []
  | [] => False
  end.
Proof.
  destruct w as [|a w]; simpl; intros Hw Hq; [done |].
  apply andb_true_iff in Hw as [Ha _]. unfold not_quote in Ha.
  destruct (is_quote a); done.
Qed.

Section ValueFacts.
Context {R : Type}.
Implicit Types (K : gostring → regexp.captures → option R).

(** Group 2 takes every byte up to the first quote; the value must not
    be empty. *)
Lemma re_value_run K (w rest : gostring) (q : ascii) (c : regexp.captures) :
  forallb not_quote w = true → is_quote q = true →
  regexp.run re_value (w ++ q :: rest) c K =
    match w with
    | [] => None
    | _ :: _ => K rest ((2, w) :: c)
    end.
Proof.
  intros Hw Hq. unfold re_value.
  cbn [regexp.run]. destruct w as [|a w']; simpl app.
  - simpl. unfold not_quote. rewrite Hq. reflexivity.
  - set (w := a :: w') in *.
    change (a :: w' ++ q :: rest) with (w ++ q :: rest).
    rewrite plus_class_greedy.
    + rewrite consumed_app, Hq. reflexivity.
    + done.
    + exact Hw.
    + intros v1 v2 E Hv1 Hv2. destruct v2 as [|b v2]; [done |].
      rewrite E, forallb_app in Hw. apply andb_true_iff in Hw as [_ Hw].
      simpl in Hw. apply andb_true_iff in Hw as [Hb _].
      unfold not_quote in Hb. simpl. destruct (is_quote b); done.
    + unfold not_quote. rewrite Hq. reflexivity.
Qed.
End ValueFacts.



Lemma forallb_drop {A} (p : A → bool) (n : nat) (l : list A) :
  forallb p l = true → forallb p (drop n l) = true.
Proof.
  intros H. rewrite <- (take_drop n l), forallb_app in H.
  apply andb_true_iff in H as [_ H]. exact H.
Qed.

(** One step of evaluating the matcher on a value whose first bytes are
    not known yet: look at the next byte. *)
Ltac split_step :=
  match goal with
  | |- context [Ascii.eqb ?a ?b] =>
      first
        [ is_var b; destruct (Ascii.eqb_spec a b); subst
        | let r := eval vm_compute in (Ascii.eqb a b) in
          change (Ascii.eqb a b) with r ]
  | |- context [match ?v ++ _ with [] => _ | _ :: _ => _ end] =>
      is_var v; destruct v
  | |- context [match ?v with [] => _ | _ :: _ => _ end] =>
      is_var v; destruct v
  end; cbn [app].

(** The bytes of a partly evaluated input that belong to the value. *)
Ltac value_part L :=
  lazymatch L with
  | ?v ++ _ :: _ => constr:(v)
  | ?a :: ?L' =>
      lazymatch L' with
      | _ ++ _ => let w := value_part L' in constr:(a :: w)
      | _ :: _ => let w := value_part L' in constr:(a :: w)
      | _ => constr:(@nil ascii)
      end
  end.

Ltac value_step q rest Hv :=
  match goal with
  | |- context [regexp.run re_value ?L ?c ?K] =>
      let w := value_part L in
      change L with (w ++ q :: rest);
      rewrite (re_value_run K w rest q);
      [ cbn [app]
      | first [ exact Hv | exact (forallb_drop _ 1 _ Hv)
              | exact (forallb_drop _ 2 _ Hv) | exact (forallb_drop _ 3 _ Hv)
              | exact (forallb_drop _ 4 _ Hv) | exact (forallb_drop _ 5 _ Hv)
              | exact (forallb_drop _ 6 _ Hv) | exact (forallb_drop _ 7 _ Hv)
              | exact (forallb_drop _ 8 _ Hv) | reflexivity ]
      | reflexivity ]
  end.

Ltac scheme_cases q rest Hv :=
  repeat split_step; try done;
  rewrite ?consumed_cons
    by (cbn [length]; rewrite ?length_app; cbn [length]; lia);
  rewrite ?consumed_same;
  repeat value_step q rest Hv; reflexivity.

(** Groups 1 and 2 on a quoted value: the preferred split. *)
Lemma scheme_value_run (v rest : gostring) (q : ascii) :
  v ≠ [] → forallb not_quote v = true → is_quote q = true →
  regexp.run (regexp.Cat (regexp.Opt (regexp.Group 1 re_scheme)) re_value)
    (v ++ q :: rest) [] regexp.accept
  = Some (rest, groups_of (split_scheme v)).
Proof.
  intros Hne Hv Hq. pose proof Hq as Hq'.
  apply is_quote_cases in Hq' as [-> | ->];
    unfold re_scheme, split_scheme; cbn [regexp.run strings.CutPrefix].
  - scheme_cases dquote rest Hv.
  - scheme_cases squote rest Hv.
Qed.


Lemma urlRegex_match (name v rest : gostring) (q1 q2 : ascii) :
  attr_name name → is_quote q1 = true → is_quote q2 = true →
  v ≠ [] → forallb not_quote v = true →
  regexp.match_here urlRegex (assignment name q1 v q2 ++ rest)
  = Some (rest, groups_of (split_scheme v)).
Proof.
  intros Hname Hq1 Hq2 Hne Hv. unfold assignment.
  rewrite <- !app_assoc. simpl app. rewrite <- app_assoc. simpl app.
  pose proof (scheme_value_run v rest q2 Hne Hv Hq2) as H.
  unfold regexp.match_here, urlRegex, re_attr.
  cbn -[re_scheme re_value] in H.
  destruct Hname as [-> | ->]; cbn -[re_scheme re_value];
    rewrite Hq1, H; reflexivity.
Qed.

Lemma urlRegex_match_inv (s rest : gostring) (c : regexp.captures) :
  regexp.match_here urlRegex s = Some (rest, c) →
  ∃ name q1 v q2,
    attr_name name ∧ is_quote q1 = true ∧ is_quote q2 = true ∧
    v ≠ [] ∧ forallb not_quote v = true ∧
    s = assignment name q1 v q2 ++ rest.
Proof.
  intros H. apply run_sound in H as (t & s' & c' & -> & Ht & [= -> ->]).
  simpl in Ht.
  destruct Ht as (name & t1 & -> & Hname & eq & t2 & -> & ->
                  & tq & t3 & -> & (q1 & -> & Hq1)
                  & sch & t4 & -> & Hsch
                  & w & tq2 & -> & (Hw & Hwq) & (q2 & -> & Hq2)).
  exists name, q1, (sch ++ w), q2. repeat split; try done.
  - destruct w; [done |]. destruct sch; done.
  - rewrite forallb_app, Hwq, andb_true_r.
    destruct Hsch as [-> | [(h & t5 & -> & -> & o & t6 & -> & [-> | ->] & ->) | ->]];
      reflexivity.
  - unfold assignment. rewrite <- !app_assoc. simpl.
    rewrite <- !app_assoc. reflexivity.
Qed.

(** ** Facts about [FindAllStringSubmatch] *)

Lemma find_all_skip (r : regexp.re) (n k : nat) (s1 s2 : gostring) :
  regexp.find_all r n (length s1 + k) (s1 ++ s2) = regexp.find_all r n k s2.
Proof. induction s1 as [|a s1 IH]; [reflexivity | exact IH]. Qed.

Lemma find_all_match (r : regexp.re) (n : nat) (t rest : gostring)
    (c : regexp.captures) :
  t ≠ [] →
  regexp.match_here r (t ++ rest) = Some (rest, c) →
  regexp.find_all r n 0 (t ++ rest)
  = regexp.submatch n (t ++ rest) rest c :: regexp.find_all r n 0 rest.
Proof.
  intros Hne H. destruct t as [|a t]; [done |].
  change ((a :: t) ++ rest) with (a :: (t ++ rest)) in *.
  cbn [regexp.find_all]. rewrite H. f_equal.
  change (a :: t ++ rest) with ((a :: t) ++ rest).
  rewrite consumed_app.
  replace (length (a :: t) - 1) with (length t + 0) by (cbn [length]; lia).
  apply find_all_skip.
Qed.


(** Every element of the result has the whole match and one entry per
    group, so the guard [len(match) >= 3] of the loop always holds. *)
Lemma find_all_length (r : regexp.re) (n : nat) (s : gostring) :
  ∀ skip, Forall (λ m, length m = S n) (regexp.find_all r n skip s).
Proof.
  assert (Hsub : ∀ s rest c, length (regexp.submatch n s rest c) = S n).
  { intros. unfold regexp.submatch. simpl.
    rewrite length_map, length_seq. reflexivity. }
  induction s as [|a s IH]; intros skip; cbn [regexp.find_all].
  - destruct skip; [| constructor].
    destruct (regexp.match_here r []) as [[rest c]|]; repeat constructor.
    apply Hsub.
  - destruct skip as [|skip]; [| apply IH].
    destruct (regexp.match_here r (a :: s)) as [[rest c]|]; [| apply IH].
    constructor; [apply Hsub | apply IH].
Qed.

(** ** The extraction loop as a filter *)

Lemma collect_filter (matches : list (list gostring)) (urls : list gostring) :
  Forall (λ m, 3 ≤ length m) matches →
  collect matches urls
  = urls ++ List.filter is_pdf_url (map fullURL_of matches).
Proof.
  intros H. revert urls. induction H as [|m matches Hm _ IH]; intros urls.
  - simpl. rewrite app_nil_r. reflexivity.
  - cbn [collect map List.filter]. apply Nat.leb_le in Hm. rewrite Hm.
    unfold is_pdf_url at 1.
    destruct (strings.Contains (fullURL_of m) ".pdf").
    + rewrite IH, <- app_assoc. reflexivity.
    + apply IH.
Qed.

Lemma extractURLs_filter (content : gostring) :
  extractURLs content
  = List.filter is_pdf_url
      (map fullURL_of (regexp.FindAllStringSubmatch urlRegex 2 content)).
Proof.
  unfold extractURLs. rewrite collect_filter; [reflexivity |].
  eapply Forall_impl; [apply find_all_length |]. simpl. intros m ->. lia.
Qed.

(** ** Facts about [path.Base] *)

Lemma one_of_app (s t : gostring) (c : ascii) :
  strings.one_of (s ++ t) c = strings.one_of s c || strings.one_of t c.
Proof. unfold strings.one_of. apply existsb_app. Qed.

Lemma CutLast1_spec (s : gostring) (sep : ascii) :
  match strings.CutLast1 s sep with
  | Some (b, a) => s = b ++ sep :: a ∧ strings.one_of a sep = false
  | None => strings.one_of s sep = false
  end.
Proof.
  induction s as [|c s IH]; simpl; [reflexivity |].
  destruct (strings.CutLast1 s sep) as [[b a]|].
  - destruct IH as [-> Ha]. done.
  - unfold strings.one_of in *. simpl.
    destruct (Ascii.eqb_spec c sep) as [->|Hne].
    + done.
    + destruct (Ascii.eqb_spec sep c) as [->|_]; done.
Qed.

Lemma trim_slashes_id (p : gostring) :
  p ≠ [] → last p ≠ Some "/"%char → path.trim_slashes p = p.
Proof.
  induction p as [|c p IH]; [done |]. intros _ Hlast.
  destruct p as [|d p].
  - simpl. destruct (Ascii.eqb_spec c "/") as [->|]; done.
  - change (path.trim_slashes (c :: d :: p))
      with (match path.trim_slashes (d :: p) with
            | [] => if Ascii.eqb c "/" then [] else [c]
            | r => c :: r
            end).
    rewrite IH; [reflexivity | done |].
    intros E. apply Hlast. rewrite last_cons, E. reflexivity.
Qed.

Lemma last_no_sep (a : gostring) (sep : ascii) :
  strings.one_of a sep = false → last a ≠ Some sep.
Proof.
  intros H E. apply last_Some in E as [l ->].
  rewrite one_of_app in H. simpl in H.
  rewrite Ascii.eqb_refl, orb_true_r in H. discriminate.
Qed.

Lemma Base_last_segment (p : gostring) :
  last_segment p ≠ [] → path.Base p = last_segment p.
Proof.
  unfold last_segment. intros Hne.
  assert (Hp : p ≠ []) by (intros ->; done).
  assert (Htrim : path.trim_slashes p = p).
  { apply trim_slashes_id; [done |].
    pose proof (CutLast1_spec p "/") as H.
    destruct (strings.CutLast1 p "/") as [[b a]|].
    - destruct H as [-> Ha]. rewrite last_app_cons, last_cons.
      destruct (last a) eqn:E.
      + rewrite <- E. apply last_no_sep, Ha.
      + apply last_None in E. subst a. done.
    - apply last_no_sep, H. }
  unfold path.Base. destruct p as [|c p]; [done |].
  rewrite Htrim.
  destruct (strings.CutLast1 (c :: p) "/") as [[b a]|]; [| reflexivity].
  destruct a; done.
Qed.

(** ** [url.Parse] ignores query string and fragment for the path *)

Lemma Cut1_app (s t : gostring) (sep : ascii) :
  strings.one_of s sep = false →
  strings.Cut1 (s ++ sep :: t) sep = (s, t, true).
Proof.
  unfold strings.one_of. induction s as [|c s IH]; simpl; intros H.
  - rewrite Ascii.eqb_refl. reflexivity.
  - apply orb_false_iff in H as [Hc Hs]. rewrite Ascii.eqb_sym, Hc, IH by done.
    reflexivity.
Qed.

Lemma Cut1_none (s : gostring) (sep : ascii) :
  strings.one_of s sep = false → strings.Cut1 s sep = (s, [], false).
Proof.
  unfold strings.one_of. induction s as [|c s IH]; simpl; intros H; [done |].
  apply orb_false_iff in H as [Hc Hs]. rewrite Ascii.eqb_sym, Hc, IH by done.
  reflexivity.
Qed.

Lemma scan_scheme_app (url t : gostring) (c : ascii) :
  ends_scheme_scan c = true →
  ∀ first,
    url.scan_scheme first (url ++ c :: t)
    = match url.scan_scheme first url with
      | Some (Some (sch, rest)) => Some (Some (sch, rest ++ c :: t))
      | r => r
      end.
Proof.
  unfold ends_scheme_scan. intros Hc.
  apply negb_true_iff in Hc. repeat (apply orb_false_iff in Hc as [Hc ?]).
  induction url as [|a url IH]; intros first; cbn [app url.scan_scheme].
  - rewrite Hc, H, H0, H1, H2. reflexivity.
  - destruct (strings.is_lower a || strings.is_upper a).
    { rewrite IH. destruct (url.scan_scheme false url) as [[[??]|]|]; done. }
    destruct (strings.is_digit a || strings.one_of "+-." a).
    { destruct first; [done |].
      rewrite IH. destruct (url.scan_scheme false url) as [[[??]|]|]; done. }
    destruct (Ascii.eqb a ":"); [| done]. destruct first; done.
Qed.

Lemma scan_scheme_split (url sch rest : gostring) :
  ∀ first, url.scan_scheme first url = Some (Some (sch, rest)) →
           url = sch ++ ":" ++ rest.
Proof.
  revert sch. induction url as [|a url IH]; intros sch first;
    cbn [url.scan_scheme]; [done |].
  destruct (strings.is_lower a || strings.is_upper a).
  { destruct (url.scan_scheme false url) as [[[s r]|]|] eqn:E; try done.
    intros [= <- <-]. rewrite (IH _ _ E). reflexivity. }
  destruct (strings.is_digit a || strings.one_of "+-." a).
  { destruct first; [done |].
    destruct (url.scan_scheme false url) as [[[s r]|]|] eqn:E; try done.
    intros [= <- <-]. rewrite (IH _ _ E). reflexivity. }
  destruct (Ascii.eqb_spec a ":") as [->|]; [| done].
  destruct first; [done |]. intros [= <- <-]. reflexivity.
Qed.

Lemma getScheme_app (url t : gostring) (c : ascii) :
  ends_scheme_scan c = true →
  url.getScheme (url ++ c :: t)
  = match url.getScheme url with
    | Some (sch, rest) => Some (sch, rest ++ c :: t)
    | None => None
    end.
Proof.
  intros Hc. unfold url.getScheme. rewrite scan_scheme_app by done.
  destruct (url.scan_scheme true url) as [[[??]|]|]; reflexivity.
Qed.

Lemma getScheme_rest (url sch rest : gostring) (c : ascii) :
  url.getScheme url = Some (sch, rest) →
  strings.one_of url c = false → strings.one_of rest c = false.
Proof.
  unfold url.getScheme.
  destruct (url.scan_scheme true url) as [[[s r]|]|] eqn:E; intros [= <- <-]; [| done].
  apply scan_scheme_split in E as ->. rewrite !one_of_app.
  intros H. repeat (apply orb_false_iff in H as [? H]). done.
Qed.

Lemma parse_query_Path (u q : gostring) :
  strings.one_of u "?" = false → existsb url.isCTL q = false →
  url.Path <$> url.parse (u ++ "?" ++ q) = url.Path <$> url.parse u.
Proof.
  intros Hu Hq. destruct (decide (u = "*")) as [-> | Hstar].
  { unfold url.parse. simpl existsb. rewrite Hq.
    rewrite (bool_decide_eq_false_2 ("*" ++ "?" ++ q = "*")) by done.
    reflexivity. }
  unfold url.parse.
  rewrite existsb_app. simpl existsb. rewrite Hq, orb_false_r.
  destruct (existsb url.isCTL u); [reflexivity |].
  rewrite (bool_decide_eq_false_2 (u = "*")) by done.
  rewrite (bool_decide_eq_false_2 (u ++ "?" ++ q = "*")).
  2:{ destruct u as [|a [|b u]]; done. }
  change (u ++ "?" ++ q) with (u ++ "?"%char :: q).
  rewrite getScheme_app by done.
  destruct (url.getScheme u) as [[sch rest]|] eqn:E; [| reflexivity].
  pose proof (getScheme_rest _ _ _ "?" E Hu) as Hrest.
  rewrite (Cut1_app rest q "?"), (Cut1_none rest "?") by done.
  repeat case_match; simplify_eq; reflexivity.
Qed.

Lemma Parse_no_fragment (u : gostring) :
  strings.one_of u "#" = false → url.Parse u = url.parse u.
Proof.
  intros H. unfold url.Parse. rewrite Cut1_none by done.
  destruct (url.parse u); reflexivity.
Qed.

Lemma Parse_fragment_Path (u f : gostring) :
  strings.one_of u "#" = false →
  is_Some (url.unescape url.encodeFragment f) →
  url.Path <$> url.Parse (u ++ "#" ++ f) = url.Path <$> url.parse u.
Proof.
  intros H [f' Hf]. unfold url.Parse.
  change (u ++ "#" ++ f) with (u ++ "#"%char :: f).
  rewrite Cut1_app by done.
  destruct (url.parse u); [| reflexivity].
  destruct f; [reflexivity |]. rewrite Hf. reflexivity.
Qed.

Lemma Parse_with_query_fragment (base : gostring) (query fragment : option gostring) :
  strings.one_of base "?" = false → strings.one_of base "#" = false →
  suffix_ok query fragment = true →
  url.Path <$> url.Parse (with_query_fragment base query fragment)
  = url.Path <$> url.Parse base.
Proof.
  intros Hq Hf Hok. unfold suffix_ok in Hok.
  apply andb_true_iff in Hok as [Hquery Hfrag].
  rewrite (Parse_no_fragment base) by done.
  unfold with_query_fragment.
  assert (Hbq : strings.one_of
                  (base ++ match query with Some q => "?" ++ q | None => [] end)
                  "#" = false).
  { rewrite one_of_app, Hf. destruct query as [q|]; [| reflexivity].
    apply andb_true_iff in Hquery as [Hq1 _]. apply negb_true_iff in Hq1.
    rewrite one_of_app, Hq1. reflexivity. }
  assert (Hpq : url.Path <$> url.parse
                  (base ++ match query with Some q => "?" ++ q | None => [] end)
                = url.Path <$> url.parse base).
  { destruct query as [q|]; [| rewrite app_nil_r; reflexivity].
    apply andb_true_iff in Hquery as [_ Hq2]. apply negb_true_iff in Hq2.
    apply parse_query_Path; done. }
  rewrite app_assoc. destruct fragment as [f|].
  - rewrite Parse_fragment_Path, Hpq; [reflexivity | done |].
    destruct (url.unescape url.encodeFragment f); [eauto | done].
  - rewrite app_nil_r, Parse_no_fragment, Hpq by done. reflexivity.
Qed.

(** Both revisions of [getFileNamesFromURLs] only look at the path. *)
Lemma getFileNamesFromURLs_Path (u1 u2 : gostring) :
  url.Path <$> url.Parse u1 = url.Path <$> url.Parse u2 →
  getFileNamesFromURLs u1 = getFileNamesFromURLs u2 ∧
  ∀ ul, last.getFileNamesFromURLs ul u1 = last.getFileNamesFromURLs ul u2.
Proof.
  unfold getFileNamesFromURLs, last.getFileNamesFromURLs.
  destruct (url.Parse u1), (url.Parse u2); simpl; intros E; try done.
  injection E as E. rewrite E. done.
Qed.

(** ** Facts about the file system model *)

Lemma mkdir_chain_dirs (dirs : list gostring) :
  ∀ m m', os.mkdir_chain m dirs = inl m' →
    (∀ d, os.node_at m d = Some Dir → os.node_at m' d = Some Dir) ∧
    Forall (λ d, os.node_at m' d = Some Dir) dirs.
Proof.
  induction dirs as [|d dirs IH]; intros m m'; simpl.
  - intros [= ->]. done.
  - destruct (os.node_at m d) as [[data|]|] eqn:E; [done | |].
    + intros H. apply IH in H as [Hkeep Hall]. split; [done |].
      constructor; [apply Hkeep, E | done].
    + intros H. apply IH in H as [Hkeep Hall].
      assert (Hins : ∀ d', os.node_at m d' = Some Dir →
                           os.node_at (<[d:=Dir]> m) d' = Some Dir).
      { intros d'. unfold os.node_at.
        destruct (os.always_dir d'); [done |].
        destruct (decide (d = d')) as [->|Hne].
        - rewrite lookup_insert_eq. done.
        - rewrite lookup_insert_ne by done. done. }
      split; [intros d' Hd'; apply Hkeep, Hins, Hd' |].
      constructor; [| done]. apply Hkeep. unfold os.node_at.
      destruct (os.always_dir d); [done |].
      apply lookup_insert_eq.
Qed.

Lemma walk_dirs (m : FS) (dirs : list gostring) :
  Forall (λ d, os.node_at m d = Some Dir) dirs → os.walk m dirs = None.
Proof. induction 1 as [|d dirs Hd _ IH]; simpl; [done |]. rewrite Hd. done. Qed.

Lemma walk_None_dirs (m : FS) (dirs : list gostring) :
  os.walk m dirs = None → Forall (λ d, os.node_at m d = Some Dir) dirs.
Proof.
  induction dirs as [|d dirs IH]; simpl; [constructor |].
  destruct (os.node_at m d) as [[?|]|] eqn:E; try done.
  intros H. constructor; auto.
Qed.

Lemma mkdir_chain_all_dirs (m : FS) (dirs : list gostring) :
  Forall (λ d, os.node_at m d = Some Dir) dirs → os.mkdir_chain m dirs = inl m.
Proof.
  induction 1 as [|d dirs Hd _ IH]; simpl; [done |]. rewrite Hd. exact IH.
Qed.

(** [Stat] finds a node when every directory on the way is one and the
    place holds the node. *)
Lemma Stat_inv (m : FS) (name : gostring) (n : Node) :
  os.Stat m name = inl n →
  name ≠ [] ∧
  Forall (λ d, os.node_at m d = Some Dir) (os.visited name) ∧
  os.node_at m (path.Clean name) = Some n.
Proof.
  unfold os.Stat. destruct name as [|c name]; [done |]. cbv zeta.
  destruct (os.walk m (os.visited (c :: name))) eqn:Hw; [done |].
  destruct (os.node_at m (path.Clean (c :: name))) as [n'|] eqn:Hn; [| done].
  intros [= ->]. apply walk_None_dirs in Hw. done.
Qed.

(** A successful [MkdirAll] is the chain of [Mkdir]s, also when the
    directory was there. *)
Lemma MkdirAll_chain (m m' : FS) (name : gostring) :
  os.MkdirAll m name = inl m' →
  name ≠ [] ∧
  os.mkdir_chain m (os.visited name ++ [path.Clean name]) = inl m'.
Proof.
  unfold os.MkdirAll. destruct (os.Stat m name) as [[d|]|e] eqn:Hs; [done | |].
  - intros [= <-]. apply Stat_inv in Hs as (Hne & Hv & Hp). split; [done |].
    apply mkdir_chain_all_dirs, Forall_app. split; [done |].
    constructor; [done | constructor].
  - destruct name as [|c name]; done.
Qed.

(** After a successful [MkdirAll] the name is a directory. *)
Lemma MkdirAll_Dir (m m' : FS) (name : gostring) :
  os.MkdirAll m name = inl m' → os.Stat m' name = inl Dir.
Proof.
  intros H. apply MkdirAll_chain in H as [Hne H].
  apply mkdir_chain_dirs in H as [_ H].
  apply Forall_app in H as [Hanc Hp]. apply Forall_inv in Hp.
  unfold os.Stat. destruct name as [|c name]; [done |].
  cbv zeta. rewrite (walk_dirs _ _ Hanc), Hp. reflexivity.
Qed.

(** [MkdirAll] of a directory that exists changes nothing and does not
    fail. *)
Lemma MkdirAll_existing (m : FS) (name : gostring) :
  os.Stat m name = inl Dir → os.MkdirAll m name = inl m.
Proof. intros H. unfold os.MkdirAll. rewrite H. reflexivity. Qed.

(** ** Running the program *)

Lemma fileExists_run (name : gostring) (w : World) :
  fileExists name w
  = (match os.Stat (fs w) name with inl (File _) => true | _ => false end, w).
Proof.
  unfold fileExists, bind, get_fs, ret.
  destruct (os.Stat (fs w) name) as [[?|]|]; reflexivity.
Qed.

Lemma fileExists_present (name : gostring) (w : World) :
  file_present (fs w) name ↔ fst (fileExists name w) = true.
Proof.
  rewrite fileExists_run. unfold file_present. simpl.
  destruct (os.Stat (fs w) name) as [[data|]|]; split;
    try done; try (intros [? [=]]); eauto.
Qed.

Lemma directoryExists_run (name : gostring) (w : World) :
  directoryExists name w
  = (match os.Stat (fs w) name with inl Dir => true | _ => false end, w).
Proof.
  unfold directoryExists, bind, get_fs, ret.
  destruct (os.Stat (fs w) name) as [[?|]|]; reflexivity.
Qed.

(** Unfolding the monad and the primitive operations. *)
Ltac run_prog :=
  cbv [bind ret log_Printf emit http_Get get_fs put_fs fs_op
       os_MkdirAll os_Create os_Mkdir io_Copy].

Lemma not_present_run (name : gostring) (w : World) :
  ¬ file_present (fs w) name → fileExists name w = (false, w).
Proof.
  intros H. rewrite fileExists_present in H. apply not_true_is_false in H.
  rewrite fileExists_run in *. simpl in H. rewrite H. reflexivity.
Qed.

Lemma present_run (name : gostring) (w : World) :
  file_present (fs w) name → fileExists name w = (true, w).
Proof. intros [data H]. rewrite fileExists_run, H. reflexivity. Qed.

Lemma file_present_dec (m : FS) (name : gostring) :
  file_present m name ∨ ¬ file_present m name.
Proof.
  unfold file_present. destruct (os.Stat m name) as [[data|]|e].
  - left. eauto.
  - right. intros [? [=]].
  - right. intros [? [=]].
Qed.

(** The steps after the GET, for both revisions. *)
Ltac run_store w folder dest resp :=
  run_prog; cbn [fs trace];
  repeat match goal with
    | |- context [os.MkdirAll (fs w) folder] =>
        destruct (os.MkdirAll (fs w) folder) as [?m1|?e]; cbn [fs trace]
    | |- context [os.Create ?m dest] =>
        destruct (os.Create m dest) as [?m2|?e]; cbn [fs trace]
    | |- context [received (body resp)] =>
        destruct (received (body resp)) as [?data [?e|]]; cbn [fs trace fst snd]
    end;
  rewrite <- ?app_assoc; reflexivity.

Lemma downloadPDF_skip (net : Network) (pdfURL folder : gostring) (w : World) :
  file_present (fs w) (destination pdfURL folder) →
  downloadPDF net pdfURL folder w
  = (None, mkWorld (fs w)
             (trace w ++ [EvLog (LogSkipping (destination pdfURL folder))])).
Proof.
  intros H. unfold downloadPDF, bind. fold (destination pdfURL folder).
  rewrite present_run by done. reflexivity.
Qed.

Lemma downloadPDF_failed (net : Network) (pdfURL folder : gostring) (w : World) :
  ¬ file_present (fs w) (destination pdfURL folder) →
  (∀ resp, net (trace w) pdfURL = Some resp → StatusCode resp ≠ 200) →
  downloadPDF net pdfURL folder w
  = (Some match net (trace w) pdfURL with
          | Some resp => ErrStatus (StatusCode resp)
          | None => ErrDownloading
          end,
     mkWorld (fs w) (trace w ++ [EvGet pdfURL])).
Proof.
  intros Hfile Hnet. unfold downloadPDF, bind. fold (destination pdfURL folder).
  rewrite not_present_run by done.
  unfold http_Get. destruct (net (trace w) pdfURL) as [resp|] eqn:Hresp.
  - specialize (Hnet _ eq_refl). apply Nat.eqb_neq in Hnet. rewrite Hnet.
    reflexivity.
  - reflexivity.
Qed.

Lemma downloadPDF_200 (net : Network) (pdfURL folder : gostring) (w : World)
    (resp : Response) :
  ¬ file_present (fs w) (destination pdfURL folder) →
  net (trace w) pdfURL = Some resp → StatusCode resp = 200 →
  downloadPDF net pdfURL folder w
  = fetch_and_store (os.IsNotExist (os.Stat (fs w) folder))
      pdfURL folder (destination pdfURL folder) resp w.
Proof.
  intros Hfile Hnet Hst. unfold downloadPDF, bind, fetch_and_store.
  fold (destination pdfURL folder).
  rewrite not_present_run by done.
  unfold http_Get. rewrite Hnet, Hst.
  change (negb (200 =? 200)) with false. cbv iota zeta.
  unfold get_fs at 1. cbn [fs trace].
  destruct (os.IsNotExist (os.Stat (fs w) folder));
    run_store w folder (destination pdfURL folder) resp.
Qed.

(** The same three cases for the last revision. *)
Section LastRevisionRuns.
Variables (net : Network) (ul : gostring → gostring).

Lemma downloadPDF_last_skip (pdfURL folder : gostring) (w : World) :
  file_present (fs w) (destination_last ul pdfURL folder) →
  downloadPDF_last net ul pdfURL folder w
  = (None, mkWorld (fs w)
             (trace w ++ [EvLog (LogSkipping (destination_last ul pdfURL folder))])).
Proof.
  intros H. unfold downloadPDF_last, bind. fold (destination_last ul pdfURL folder).
  rewrite present_run by done. reflexivity.
Qed.

Lemma downloadPDF_last_failed (pdfURL folder : gostring) (w : World) :
  ¬ file_present (fs w) (destination_last ul pdfURL folder) →
  (∀ resp, net (trace w) pdfURL = Some resp → StatusCode resp ≠ 200) →
  downloadPDF_last net ul pdfURL folder w
  = (Some match net (trace w) pdfURL with
          | Some resp => ErrStatus (StatusCode resp)
          | None => ErrDownloading
          end,
     mkWorld (fs w) (trace w ++ [EvGet pdfURL])).
Proof.
  intros Hfile Hnet. unfold downloadPDF_last, bind.
  fold (destination_last ul pdfURL folder).
  rewrite not_present_run by done.
  unfold http_Get. destruct (net (trace w) pdfURL) as [resp|] eqn:Hresp.
  - specialize (Hnet _ eq_refl). apply Nat.eqb_neq in Hnet. rewrite Hnet.
    reflexivity.
  - reflexivity.
Qed.

Lemma downloadPDF_last_200 (pdfURL folder : gostring) (w : World)
    (resp : Response) :
  ¬ file_present (fs w) (destination_last ul pdfURL folder) →
  net (trace w) pdfURL = Some resp → StatusCode resp = 200 →
  downloadPDF_last net ul pdfURL folder w
  = fetch_and_store
      (negb match os.Stat (fs w) folder with inl Dir => true | _ => false end)
      pdfURL folder (destination_last ul pdfURL folder) resp w.
Proof.
  intros Hfile Hnet Hst. unfold downloadPDF_last, bind, fetch_and_store.
  fold (destination_last ul pdfURL folder).
  rewrite not_present_run by done.
  unfold http_Get. rewrite Hnet, Hst.
  change (negb (200 =? 200)) with false. cbv beta iota zeta.
  rewrite directoryExists_run. cbn [fs trace].
  destruct (negb match os.Stat (fs w) folder with inl Dir => true | _ => false end);
    run_store w folder (destination_last ul pdfURL folder) resp.
Qed.
End LastRevisionRuns.

(** ** What [fetch_and_store] does *)

Section FetchAndStore.
Variables (missing : bool) (pdfURL folder dest : gostring)
          (resp : Response) (w : World).

Let r := fetch_and_store missing pdfURL folder dest resp w.

(** The effects in order: the GET, then the folder, then the file. *)
Lemma fetch_and_store_trace :
  ∃ rest,
    trace (snd r)
    = trace w ++ EvGet pdfURL
                :: (if missing then [EvMkdirAll folder] else []) ++ rest ∧
    (rest = [] ∨ rest = [EvCreate dest] ∨
     rest = [EvCreate dest; EvWrite dest (fst (received (body resp)))]) ∧
    (rest ≠ [] →
     ∃ m1, (if missing then os.MkdirAll (fs w) folder else inl (fs w)) = inl m1).
Proof.
  subst r. unfold fetch_and_store.
  destruct (if missing then os.MkdirAll (fs w) folder else inl (fs w))
    as [m1|e].
  - destruct (os.Create m1 dest) as [m2|e]; cbn [snd trace].
    + eexists. rewrite <- app_assoc. split; [reflexivity |].
      split; [auto | eauto].
    + eexists. rewrite <- app_assoc. split; [reflexivity |].
      split; [auto | eauto].
  - exists []. cbn [snd trace]. rewrite app_nil_r. split; [reflexivity |].
    split; [auto | done].
Qed.

(** Success means that the whole body is in the file. *)
Lemma fetch_and_store_success :
  fst r = None →
  cut_after (body resp) = None ∧
  fs (snd r) !! path.Clean dest = Some (File (content (body resp))).
Proof.
  subst r. unfold fetch_and_store, received.
  destruct (if missing then os.MkdirAll (fs w) folder else inl (fs w))
    as [m1|e]; [| done].
  destruct (os.Create m1 dest) as [m2|e]; [| done].
  destruct (cut_after (body resp)); cbn [fst snd fs]; [done |].
  intros _. split; [reflexivity | apply lookup_insert_eq].
Qed.

(** A cut transfer is an error; the bytes that arrived stay in the
    file. *)
Lemma fetch_and_store_cut (n : nat) :
  cut_after (body resp) = Some n →
  ∃ e, fst r = Some e ∧
       (e = ErrSaving →
        fs (snd r) !! path.Clean dest
        = Some (File (take n (content (body resp))))).
Proof.
  subst r. unfold fetch_and_store, received. intros ->.
  destruct (if missing then os.MkdirAll (fs w) folder else inl (fs w))
    as [m1|e]; [| eexists; split; [reflexivity | done]].
  destruct (os.Create m1 dest) as [m2|e];
    [| eexists; split; [reflexivity | done]].
  cbn [fst snd fs]. eexists. split; [reflexivity |].
  intros _. apply lookup_insert_eq.
Qed.
End FetchAndStore.

(** ** The batch loop *)

Lemma results_logged_app (evs1 evs2 : list event) :
  results_logged (evs1 ++ evs2) = results_logged evs1 ++ results_logged evs2.
Proof. apply omap_app. Qed.

(** A download only adds to the history, and never a per-link result
    line: those are written by the loop. *)
Lemma downloadPDF_history (net : Network) (pdfURL folder : gostring) (w : World) :
  ∃ evs, trace (snd (downloadPDF net pdfURL folder w)) = trace w ++ evs ∧
         results_logged evs = [].
Proof.
  destruct (file_present_dec (fs w) (destination pdfURL folder)) as [Hp|Hp].
  { rewrite downloadPDF_skip by done. eexists. split; reflexivity. }
  destruct (net (trace w) pdfURL) as [resp|] eqn:Hnet.
  2:{ rewrite downloadPDF_failed; [| done |].
      - eexists. split; reflexivity.
      - intros resp E. rewrite Hnet in E. done. }
  destruct (decide (StatusCode resp = 200)) as [Hst|Hst].
  2:{ rewrite downloadPDF_failed; [| done |].
      - eexists. split; reflexivity.
      - intros resp' E. rewrite Hnet in E. injection E as <-. done. }
  rewrite (downloadPDF_200 _ _ _ _ resp) by done.
  destruct (fetch_and_store_trace (os.IsNotExist (os.Stat (fs w) folder))
              pdfURL folder (destination pdfURL folder) resp w)
    as (rest & -> & Hrest & _).
  eexists. split; [reflexivity |].
  destruct (os.IsNotExist (os.Stat (fs w) folder));
    destruct Hrest as [-> | [-> | ->]]; reflexivity.
Qed.

Lemma download_each_cons (net : Network) (link : gostring)
    (links : list gostring) (folder : gostring) (w : World) :
  download_each net (link :: links) folder w
  = let r := downloadPDF net link folder w in
    let line := match fst r with
                | Some e => LogFailed link e
                | None => LogDownloaded link
                end in
    download_each net links folder
      (mkWorld (fs (snd r)) (trace (snd r) ++ [EvLog line])).
Proof.
  cbn [download_each]. unfold bind at 1.
  destruct (downloadPDF net link folder w) as [[e|] w1]; reflexivity.
Qed.

Lemma download_each_app (net : Network) (l1 l2 : list gostring)
    (folder : gostring) :
  ∀ w, download_each net (l1 ++ l2) folder w
       = download_each net l2 folder (snd (download_each net l1 folder w)).
Proof.
  induction l1 as [|link l1 IH]; intros w; [reflexivity |].
  rewrite <- app_comm_cons, !download_each_cons. apply IH.
Qed.

Lemma download_each_history (net : Network) (links : list gostring)
    (folder : gostring) :
  ∀ w, ∃ evs,
    trace (snd (download_each net links folder w)) = trace w ++ evs ∧
    map fst (results_logged evs) = links.
Proof.
  induction links as [|link links IH]; intros w.
  - exists []. rewrite app_nil_r. done.
  - rewrite download_each_cons. cbv zeta.
    destruct (downloadPDF_history net link folder w) as (evs1 & H1 & Hlog1).
    match goal with
    | |- context [download_each net links folder ?w1] =>
        destruct (IH w1) as (evs2 & H2 & Hlog2)
    end.
    eexists. rewrite H2. cbn [trace]. rewrite H1, <- !app_assoc.
    split; [reflexivity |].
    rewrite results_logged_app, Hlog1.
    destruct (fst (downloadPDF net link folder w)); simpl;
      rewrite Hlog2; reflexivity.
Qed.

(** ** Facts shared by the comparison of the two extractors *)


Lemma submatch_groups (s rest : gostring) (sp : gostring * gostring) :
  regexp.submatch 2 s rest (groups_of sp)
  = [regexp.consumed s rest; fst sp; snd sp].
Proof. destruct sp as [[|a sch] w]; reflexivity. Qed.

Lemma fullURL_of_absolute (whole v : gostring) :
  strings.HasPrefix v "http://" || strings.HasPrefix v "https://" = true →
  fullURL_of [whole; fst (split_scheme v); snd (split_scheme v)] = v.
Proof.
  intros H. apply orb_true_iff in H as [H|H];
    apply HasPrefix_true in H as [r ->]; destruct r as [|a r]; reflexivity.
Qed.

Lemma filter_all {A} (p : A → bool) (l : list A) :
  forallb p l = true → List.filter p l = l.
Proof.
  induction l as [|a l IH]; simpl; [done |].
  rewrite andb_true_iff. intros [-> H]. rewrite IH; done.
Qed.


(** The URL built from a match: the value itself, or the value with
    [https:] in front when it starts with [//]. *)
Lemma fullURL_of_value (whole v : gostring) :
  let u := fullURL_of [whole; fst (split_scheme v); snd (split_scheme v)] in
  u = v ∨ (u = "https:" ++ v ∧ strings.HasPrefix v "//" = true).
Proof.
  unfold split_scheme.
  destruct (strings.CutPrefix v "https://") as [[|a w]|] eqn:E1.
  2:{ apply CutPrefix_Some in E1 as ->. left. reflexivity. }
  all: destruct (strings.CutPrefix v "http://") as [[|a w]|] eqn:E2.
  all: try (apply CutPrefix_Some in E2 as ->; left; reflexivity).
  all: destruct (strings.CutPrefix v "//") as [[|a w]|] eqn:E3.
  all: try (apply CutPrefix_Some in E3 as ->; right; split; reflexivity).
  all: left; reflexivity.
Qed.

(** *** Escaped text *)






(** *** The expression on text without quotes *)



(** *** The two extractors on simple documents *)














Section GoqueryFacts.
Variable ul : gostring → gostring.


End GoqueryFacts.

(** [ExtractURLsFromHTMLFile] applies the extraction to the text of the
    file, and fails only when the file cannot be read. *)
Lemma ExtractURLsFromHTMLFile_run (filePath : gostring) (w : World) :
  ExtractURLsFromHTMLFile filePath w
  = (match os.ReadFile (fs w) filePath with
     | inl data => (extractURLs data, None)
     | inr _ => ([], Some ErrReadFile)
     end, w).
Proof.
  unfold ExtractURLsFromHTMLFile, bind, get_fs, ret.
  destruct (os.ReadFile (fs w) filePath); reflexivity.
Qed.

(** [main] is the loop over the extracted links, run after the page has
    been fetched and read. *)
Lemma main_download_each (net : Network) (w : World) :
  ∃ links w1, main net w = download_each net links folderName w1.
Proof.
  unfold main, bind.
  destruct (createDirectory folderName w) as [[] w0].
  destruct (downloadFileUsingURLandFilePath net urlFromChemicalGuys
              (path.Join ["chemical_guys_sds_page.html"]) w0) as [e1 w1].
  destruct (ExtractURLsFromHTMLFile (path.Join ["chemical_guys_sds_page.html"]) w1)
    as [[links err] w2].
  cbn [fst snd].
  destruct (match err with
            | Some e => log_Printf (LogExtractError e)
            | None => ret ()
            end w2) as [[] w3].
  eauto.
Qed.

(** The expression on a text that is one attribute assignment: one
    match, the whole text. *)
Lemma find_all_assignment (name v : gostring) (q1 q2 : ascii) :
  attr_name name → is_quote q1 = true → is_quote q2 = true →
  v ≠ [] → forallb not_quote v = true →
  regexp.FindAllStringSubmatch urlRegex 2 (assignment name q1 v q2)
  = [[assignment name q1 v q2; fst (split_scheme v); snd (split_scheme v)]].
Proof.
  intros Hn H1 H2 Hne Hv. unfold regexp.FindAllStringSubmatch.
  rewrite <- (app_nil_r (assignment name q1 v q2)) at 1.
  rewrite find_all_match with (c := groups_of (split_scheme v)).
  - rewrite submatch_groups, consumed_app. reflexivity.
  - unfold assignment. destruct Hn as [-> | ->]; done.
  - apply urlRegex_match; done.
Qed.

(** ** The downloader of the last revision

    The last revision differs in the derived name and in the test before
    [MkdirAll]; what the downloader guarantees is the same. *)

Section LastRevisionFacts.
Variables (net : Network) (ul : gostring → gostring).
Variables (pdfURL folder : gostring) (w : World).

Let dest := destination_last ul pdfURL folder.
Let r := downloadPDF_last net ul pdfURL folder w.

Lemma last_skip_existing_file :
  file_present (fs w) dest →
  fst r = None ∧ fs (snd r) = fs w ∧
  trace (snd r) = trace w ++ [EvLog (LogSkipping dest)].
Proof.
  intros H. subst r dest. rewrite downloadPDF_last_skip by done. done.
Qed.

Lemma last_failed_fetch_changes_nothing :
  ¬ file_present (fs w) dest →
  (∀ resp, net (trace w) pdfURL = Some resp → StatusCode resp ≠ 200) →
  (∃ e, fst r = Some e) ∧ fs (snd r) = fs w ∧
  trace (snd r) = trace w ++ [EvGet pdfURL].
Proof.
  intros Hfile Hnet. subst r dest. rewrite downloadPDF_last_failed by done.
  cbn [fst snd fs trace]. eauto.
Qed.

Lemma last_folder_after_get (resp : Response) :
  ¬ file_present (fs w) dest →
  net (trace w) pdfURL = Some resp → StatusCode resp = 200 →
  let missing :=
    negb match os.Stat (fs w) folder with inl Dir => true | _ => false end in
  ∃ file_steps,
    trace (snd r)
    = trace w ++ EvGet pdfURL
                :: (if missing then [EvMkdirAll folder] else []) ++ file_steps ∧
    (file_steps = [] ∨ file_steps = [EvCreate dest] ∨
     ∃ data, file_steps = [EvCreate dest; EvWrite dest data]) ∧
    (missing = true → file_steps ≠ [] →
     ∃ m1, os.MkdirAll (fs w) folder = inl m1 ∧ os.Stat m1 folder = inl Dir).
Proof.
  intros Hfile Hnet Hst missing. subst r dest.
  rewrite (downloadPDF_last_200 _ _ _ _ _ resp) by done. fold missing.
  clearbody missing.
  destruct (fetch_and_store_trace missing pdfURL folder
              (destination_last ul pdfURL folder) resp w)
    as (rest & Htr & Hrest & Hm).
  exists rest. split; [exact Htr |]. split.
  - destruct Hrest as [-> | [-> | ->]]; eauto.
  - intros Hmiss Hne. destruct (Hm Hne) as [m1 E]. rewrite Hmiss in E.
    exists m1. split; [exact E | eapply MkdirAll_Dir, E].
Qed.

Lemma last_success_means_full_copy :
  fst r = None →
  file_present (fs w) dest ∨
  ∃ resp, net (trace w) pdfURL = Some resp ∧ StatusCode resp = 200 ∧
          cut_after (body resp) = None ∧
          fs (snd r) !! path.Clean dest = Some (File (content (body resp))).
Proof.
  subst r dest. intros Hok.
  destruct (file_present_dec (fs w) (destination_last ul pdfURL folder))
    as [|Hfile]; [auto | right].
  destruct (net (trace w) pdfURL) as [resp|] eqn:Hnet.
  - destruct (decide (StatusCode resp = 200)) as [Hst|Hst].
    + rewrite (downloadPDF_last_200 _ _ _ _ _ resp) in Hok |- * by done.
      apply fetch_and_store_success in Hok as [Hcut Hfs]. eauto.
    + rewrite downloadPDF_last_failed in Hok; [done | done |].
      intros resp' E. rewrite Hnet in E. injection E as <-. done.
  - rewrite downloadPDF_last_failed in Hok; [done | done |].
    intros resp' E. rewrite Hnet in E. done.
Qed.
End LastRevisionFacts.

(** ** The loop, link by link *)

(** A download of a file that is not there begins with the request. *)
Lemma downloadPDF_requests (net : Network) (link folder : gostring) (w : World) :
  ¬ file_present (fs w) (destination link folder) →
  ∃ evs, trace (snd (downloadPDF net link folder w))
         = trace w ++ EvGet link :: evs.
Proof.
  intros Hfile. destruct (net (trace w) link) as [resp|] eqn:Hnet.
  - destruct (decide (StatusCode resp = 200)) as [Hst|Hst].
    + rewrite (downloadPDF_200 net link folder w resp Hfile Hnet Hst).
      destruct (fetch_and_store_trace
                  (os.IsNotExist (os.Stat (fs w) folder)) link folder
                  (destination link folder) resp w) as (rest & -> & _).
      eauto.
    + rewrite downloadPDF_failed; [exists []; reflexivity | done |].
      intros resp' E. rewrite Hnet in E. injection E as <-. done.
  - rewrite downloadPDF_failed; [exists []; reflexivity | done |].
    intros resp' E. rewrite Hnet in E. done.
Qed.

(** The loop up to and including a link: [downloadPDF] has run for that
    link in the state the links before it left, and its result has been
    logged. *)
Lemma download_each_snoc (net : Network) (done_ : list gostring)
    (link folder : gostring) (w : World) :
  let r := downloadPDF net link folder (snd (download_each net done_ folder w)) in
  snd (download_each net (done_ ++ [link]) folder w)
  = mkWorld (fs (snd r))
      (trace (snd r)
       ++ [EvLog match fst r with
                 | Some e => LogFailed link e
                 | None => LogDownloaded link
                 end]).
Proof. cbv zeta. rewrite download_each_app, download_each_cons. reflexivity. Qed.

(** The result lines of a pass: for every link, in order, the link and
    what its own call of [downloadPDF] returned. *)
Lemma download_each_results (net : Network) (links : list gostring)
    (folder : gostring) :
  ∀ w, ∃ evs,
    trace (snd (download_each net links folder w)) = trace w ++ evs ∧
    map fst (results_logged evs) = links ∧
    ∀ i link, links !! i = Some link →
      results_logged evs !! i
      = Some (link, fst (downloadPDF net link folder
                           (snd (download_each net (take i links) folder w)))).
Proof.
  induction links as [|link links IH]; intros w.
  - exists []. rewrite app_nil_r. done.
  - rewrite download_each_cons. cbv zeta.
    destruct (downloadPDF_history net link folder w) as (evs1 & H1 & Hlog1).
    match goal with
    | |- context [download_each net links folder ?w1] =>
        destruct (IH w1) as (evs2 & H2 & Hlog2 & Hres2)
    end.
    exists (evs1 ++ EvLog match fst (downloadPDF net link folder w) with
                          | Some e => LogFailed link e
                          | None => LogDownloaded link
                          end :: evs2).
    assert (Hlog : results_logged
                     (evs1 ++ EvLog match fst (downloadPDF net link folder w) with
                                    | Some e => LogFailed link e
                                    | None => LogDownloaded link
                                    end :: evs2)
                   = (link, fst (downloadPDF net link folder w))
                       :: results_logged evs2).
    { rewrite results_logged_app, Hlog1.
      destruct (fst (downloadPDF net link folder w)); reflexivity. }
    split; [rewrite H2; cbn [trace]; rewrite H1, <- !app_assoc; reflexivity |].
    rewrite Hlog. split; [cbn [map fst]; rewrite Hlog2; reflexivity |].
    intros [|i] l Hl.
    + injection Hl as <-. reflexivity.
    + change ((link :: links) !! S i) with (links !! i) in Hl.
      match goal with
      | |- (?x :: ?xs) !! S i = _ => change ((x :: xs) !! S i) with (xs !! i)
      end.
      rewrite (Hres2 i l Hl).
      cbn [take]. rewrite download_each_cons. reflexivity.
Qed.

(** [main] step by step: the folder, the page, the extraction, the loop. *)
Lemma main_run (net : Network) (w : World) :
  main net w
  = let w0 := snd (createDirectory folderName w) in
    let w1 := snd (downloadFileUsingURLandFilePath net urlFromChemicalGuys
                     localURLFilePath w0) in
    match os.ReadFile (fs w1) localURLFilePath with
    | inl data => download_each net (extractURLs data) folderName w1
    | inr _ =>
        (tt, mkWorld (fs w1) (trace w1 ++ [EvLog (LogExtractError ErrReadFile)]))
    end.
Proof.
  unfold main, bind. fold localURLFilePath. cbv zeta.
  destruct (createDirectory folderName w) as [[] w0]. cbn [snd].
  destruct (downloadFileUsingURLandFilePath net urlFromChemicalGuys
              localURLFilePath w0) as [e1 w1]. cbn [snd].
  rewrite ExtractURLsFromHTMLFile_run.
  destruct (os.ReadFile (fs w1) localURLFilePath); reflexivity.
Qed.

(** * The link extractor *)

(** C1 (as stated, refuted): on the example document the extractor does
    not return exactly the absolute link and the resolved
    protocol-relative source. *)
Lemma extraction_example_refuted :
  extractURLs example_page
  ≠ ["https://x.com/a.pdf"; "https://cdn.x.com/b.PDF?query=1"].
Proof. vm_compute. discriminate. Qed.

(** C1 (amended): on the example document the extractor returns the
    absolute link and the relative link, the latter unresolved; the
    protocol-relative source is absent because its extension is written
    [.PDF] and the containment test is for the lower-case [.pdf]; written
    in lower case it is returned resolved to [https://], in document
    order.  The link to [/about] is excluded in both cases. *)
Theorem extraction_example :
  extractURLs example_page = ["https://x.com/a.pdf"; "/rel/c.pdf"] ∧
  extractURLs example_page_lower
  = ["https://x.com/a.pdf"; "https://cdn.x.com/b.pdf?query=1"; "/rel/c.pdf"].
Proof. split; vm_compute; reflexivity. Qed.

(** C4: of the attribute values the expression matches, the extractor
    keeps exactly those whose absolute form contains [.pdf] somewhere (a
    containment test: a URL with [.pdf] only in its query is kept), in
    order, and every URL it returns contains [.pdf]. *)
Theorem pdf_substring_filter (content : gostring) :
  (∀ u, is_pdf_url u = true ↔ ∃ l r, u = l ++ ".pdf" ++ r) ∧
  extractURLs content
  = List.filter is_pdf_url
      (map fullURL_of (regexp.FindAllStringSubmatch urlRegex 2 content)) ∧
  Forall (λ u, ∃ l r, u = l ++ ".pdf" ++ r) (extractURLs content) ∧
  extractURLs (tag "a" "href" "https://x.com/view?file=a.pdf&page=2")
  = ["https://x.com/view?file=a.pdf&page=2"].
Proof.
  split; [intros u; apply Contains_true |].
  split; [apply extractURLs_filter |].
  split; [| vm_compute; reflexivity].
  rewrite extractURLs_filter. apply List.Forall_forall.
  intros u Hu. apply List.filter_In in Hu as [_ Hu].
  apply Contains_true. exact Hu.
Qed.

(** C5 (as stated, refuted): an attribute name in upper case is not
    matched like the lower-case one. *)
Lemma attribute_case_refuted :
  extractURLs (tag "a" "HREF" "https://x.com/a.pdf")
  ≠ extractURLs (tag "a" "href" "https://x.com/a.pdf").
Proof. vm_compute. discriminate. Qed.

(** C5 (amended): the expression matches, at a position of the text,
    exactly an attribute name [href] or [src] written in lower case,
    [=], a single or double quote, a non-empty value without quotes and
    a single or double quote again (not necessarily the same one); the
    groups are the preferred split of the value into scheme and rest.
    On a text that is such an assignment it finds that one match; with
    the name in another case it finds none. *)
Theorem attribute_match_shape (s rest : gostring) (c : regexp.captures) :
  (regexp.match_here urlRegex s = Some (rest, c) ↔
   ∃ name q1 v q2,
     attr_name name ∧ is_quote q1 = true ∧ is_quote q2 = true ∧
     v ≠ [] ∧ forallb not_quote v = true ∧
     s = assignment name q1 v q2 ++ rest ∧
     c = groups_of (split_scheme v)) ∧
  (∀ name q1 v q2,
     attr_name name → is_quote q1 = true → is_quote q2 = true →
     v ≠ [] → forallb not_quote v = true →
     regexp.FindAllStringSubmatch urlRegex 2 (assignment name q1 v q2)
     = [[assignment name q1 v q2; fst (split_scheme v); snd (split_scheme v)]]) ∧
  regexp.FindAllStringSubmatch urlRegex 2 (assignment "HREF" dquote pdf_a dquote) = [] ∧
  regexp.FindAllStringSubmatch urlRegex 2 (assignment "Src" squote pdf_a squote) = [].
Proof.
  split; [| split; [intros; apply find_all_assignment; assumption
                   | vm_compute; done]].
  split.
  - intros H. pose proof H as H'.
    apply urlRegex_match_inv in H' as (name & q1 & v & q2 & Hn & H1 & H2 & Hne & Hv & ->).
    rewrite urlRegex_match in H by assumption. injection H as <-.
    exists name, q1, v, q2. done.
  - intros (name & q1 & v & q2 & Hn & H1 & H2 & Hne & Hv & -> & ->).
    apply urlRegex_match; assumption.
Qed.

(** * Regex extractor and structural extractor *)




(** * The local file name *)

(** C2 (as stated, refuted): for a URL without a path the derived name
    is [.], not the (empty) last path segment; and the first revisions do
    not lower-case, so that the example derives to [My_File.pdf] there.
    The names are ASCII, so the Unicode case mapping plays no part. *)
Lemma filename_last_segment_refuted :
  last.getFileNamesFromURLs (λ s, s) "https://example.com?file=a.pdf"
  ≠ spec_filename (λ s, s) "https://example.com?file=a.pdf" ∧
  getFileNamesFromURLs example_url ≠ "my_file.pdf".
Proof. split; vm_compute; discriminate. Qed.

(** C2 (amended): for a URL the library parses, the derived name is
    [path.Base] of its percent-decoded path, query string and fragment
    ignored, with every space replaced by an underscore; the last
    revision lower-cases it, the earlier ones leave the case alone.
    [path.Base] is the last path segment whenever that segment is not
    empty, and [.] for an empty path.  A URL the library rejects derives
    the empty name.  In the last revision the example derives to
    [my_file.pdf]. *)
Theorem filename_derivation (unicode_lower : gostring → gostring)
    (base : gostring) (query fragment : option gostring) :
  strings.one_of base "?" = false → strings.one_of base "#" = false →
  suffix_ok query fragment = true →
  let full := with_query_fragment base query fragment in
  match url.Parse base with
  | Some u =>
      let name := strings.ReplaceAll1 (path.Base (url.Path u)) " " "_" in
      getFileNamesFromURLs full = name ∧
      last.getFileNamesFromURLs unicode_lower full
      = strings.ToLower unicode_lower name ∧
      (last_segment (url.Path u) ≠ [] →
       path.Base (url.Path u) = last_segment (url.Path u))
  | None =>
      getFileNamesFromURLs full = [] ∧
      last.getFileNamesFromURLs unicode_lower full = []
  end ∧
  path.Base [] = "." ∧
  last.getFileNamesFromURLs unicode_lower example_url = "my_file.pdf".
Proof.
  intros Hq Hf Hok full. split; [| split; reflexivity].
  pose proof (Parse_with_query_fragment base query fragment Hq Hf Hok) as HP.
  apply getFileNamesFromURLs_Path in HP as [H1 H2].
  fold full in H1, H2. rewrite H1, H2.
  unfold getFileNamesFromURLs, last.getFileNamesFromURLs.
  destruct (url.Parse base) as [u|]; [| done].
  split; [reflexivity |]. split; [reflexivity |]. apply Base_last_segment.
Qed.

Lemma filename_derivation_witness :
  last.getFileNamesFromURLs (λ s, s)
    (with_query_fragment "https://example.com/docs/My File.pdf" (Some "v=2") None)
  = "my_file.pdf".
Proof.
  pose proof (filename_derivation (λ s, s)
                "https://example.com/docs/My File.pdf" (Some "v=2") None
                eq_refl eq_refl eq_refl) as [H _].
  vm_compute in H. destruct H as (_ & H & _). exact H.
Defined.

(** * The downloader *)

(** C3 (as stated, refuted): a skipped download and a download made now
    report the same outcome, [nil]; [main] logs the same line for both.
    The first run below finds [PDFs/a.pdf] and makes no request, the
    second one fetches it. *)
Lemma skip_outcome_refuted :
  let skipped := downloadPDF net_example pdf_a "PDFs" w_with_a in
  let fetched := downloadPDF net_example pdf_a "PDFs" w_empty in
  gets (trace (snd skipped)) = [] ∧
  gets (trace (snd fetched)) = [pdf_a] ∧
  fst skipped = fst fetched ∧
  results_logged (trace (snd (download_each net_example [pdf_a] "PDFs" w_with_a)))
  = results_logged (trace (snd (download_each net_example [pdf_a] "PDFs" w_empty))).
Proof. vm_compute. done. Qed.

(** C3 (amended): when a regular file is already at the destination,
    [downloadPDF] makes no network call, leaves the file system as it is
    and returns [nil], the value a completed download returns as well;
    the skip shows only as the log line that names the file, and the
    loop of [main] logs the link as downloaded. *)
Theorem skip_existing_file (net : Network) (pdfURL folder : gostring) (w : World) :
  file_present (fs w) (destination pdfURL folder) →
  let r := downloadPDF net pdfURL folder w in
  fst r = None ∧
  fs (snd r) = fs w ∧
  gets (trace (snd r)) = gets (trace w) ∧
  trace (snd r)
  = trace w ++ [EvLog (LogSkipping (destination pdfURL folder))] ∧
  results_logged (trace (snd (download_each net [pdfURL] folder w)))
  = results_logged (trace w) ++ [(pdfURL, None)].
Proof.
  intros H r. subst r. rewrite download_each_cons.
  rewrite downloadPDF_skip by done. cbn [fst snd fs trace download_each ret].
  repeat split.
  - unfold gets. rewrite omap_app. simpl. apply app_nil_r.
  - rewrite !results_logged_app. simpl. rewrite app_nil_r. reflexivity.
Qed.

Lemma skip_existing_file_witness :
  trace (snd (downloadPDF net_example pdf_a "PDFs" w_with_a))
  = [EvLog (LogSkipping "PDFs/a.pdf")].
Proof.
  assert (H : file_present (fs w_with_a) (destination pdf_a "PDFs")).
  { exists "old". vm_compute. reflexivity. }
  exact (proj1 (proj2 (proj2 (proj2
           (skip_existing_file net_example pdf_a "PDFs" w_with_a H))))).
Defined.

(** C10: when the file is not there yet and the GET fails or answers
    with a status other than 200, [downloadPDF] returns an error and the
    only thing it has done is the GET: the file system is unchanged, no
    folder and no file is created and nothing is written. *)
Theorem failed_fetch_changes_nothing (net : Network) (pdfURL folder : gostring)
    (w : World) :
  ¬ file_present (fs w) (destination pdfURL folder) →
  (∀ resp, net (trace w) pdfURL = Some resp → StatusCode resp ≠ 200) →
  let r := downloadPDF net pdfURL folder w in
  (∃ e, fst r = Some e) ∧
  fs (snd r) = fs w ∧
  trace (snd r) = trace w ++ [EvGet pdfURL].
Proof.
  intros Hfile Hnet r. subst r. rewrite downloadPDF_failed by done.
  cbn [fst snd fs trace]. eauto.
Qed.

Lemma failed_fetch_changes_nothing_witness :
  fst (downloadPDF net_example pdf_b "PDFs" w_empty) = Some (ErrStatus 404) ∧
  fs (snd (downloadPDF net_example pdf_b "PDFs" w_empty)) = ∅.
Proof.
  assert (Hfile : ¬ file_present (fs w_empty) (destination pdf_b "PDFs")).
  { intros [data H]. vm_compute in H. discriminate. }
  assert (Hnet : ∀ resp, net_example (trace w_empty) pdf_b = Some resp →
                         StatusCode resp ≠ 200).
  { intros resp H. vm_compute in H. injection H as <-. simpl. lia. }
  pose proof (failed_fetch_changes_nothing net_example pdf_b "PDFs" w_empty
                Hfile Hnet) as (_ & Hfs & _).
  split; [vm_compute; reflexivity | exact Hfs].
Defined.

(** C8 (as stated, refuted): [downloadPDF] can return [nil] although
    the destination holds only part of the body.  The copy of [pdf_d] is
    cut after three bytes and the first call returns the saving error; the
    second call finds the partial file, makes no request, returns [nil],
    and the loop of [main] reports the link as downloaded, while the file
    still holds the three bytes and not the body the server sends. *)
Lemma success_without_full_copy :
  let first := downloadPDF net_example pdf_d "PDFs" w_empty in
  let second := downloadPDF net_example pdf_d "PDFs" (snd first) in
  fst first = Some ErrSaving ∧
  fst second = None ∧
  net_example (trace (snd first)) pdf_d
  = Some (mkResponse 200 (mkBody "%PDF-d" (Some 3))) ∧
  fs (snd second) !! "PDFs/d.pdf" = Some (File "%PD") ∧
  fs (snd second) !! "PDFs/d.pdf" ≠ Some (File "%PDF-d") ∧
  gets (trace (snd second)) = [pdf_d] ∧
  results_logged
    (trace (snd (download_each net_example [pdf_d] "PDFs" (snd first))))
  = [(pdf_d, None)].
Proof. vm_compute. done. Qed.

(** C8 (amended): [downloadPDF] returns [nil] only in two cases: the
    file was there already, and then the call only logs the skip, nothing
    is fetched or written and the file is left as it is, whatever it
    holds; or the file was not there and the whole response body has been
    written to the destination.  When the file is not there and the copy
    of the body is cut, that call returns an error, and the bytes that
    arrived stay in the file. *)
Theorem success_means_full_copy (net : Network) (pdfURL folder : gostring)
    (w : World) :
  let dest := destination pdfURL folder in
  let r := downloadPDF net pdfURL folder w in
  (fst r = None →
   (file_present (fs w) dest ∧
    snd r = mkWorld (fs w) (trace w ++ [EvLog (LogSkipping dest)])) ∨
   (¬ file_present (fs w) dest ∧
    ∃ resp, net (trace w) pdfURL = Some resp ∧ StatusCode resp = 200 ∧
            cut_after (body resp) = None ∧
            fs (snd r) !! path.Clean dest = Some (File (content (body resp))))) ∧
  (¬ file_present (fs w) dest →
   ∀ resp n, net (trace w) pdfURL = Some resp →
             cut_after (body resp) = Some n →
             ∃ e, fst r = Some e ∧
                  (e = ErrSaving →
                   fs (snd r) !! path.Clean dest
                   = Some (File (take n (content (body resp)))))).
Proof.
  intros dest r. subst dest r. split.
  - intros Hok.
    destruct (file_present_dec (fs w) (destination pdfURL folder)) as [Hfile|Hfile].
    { left. split; [exact Hfile |]. rewrite downloadPDF_skip by done. reflexivity. }
    right. split; [exact Hfile |].
    destruct (net (trace w) pdfURL) as [resp|] eqn:Hnet.
    + destruct (decide (StatusCode resp = 200)) as [Hst|Hst].
      * rewrite (downloadPDF_200 _ _ _ _ resp) in Hok |- * by done.
        apply fetch_and_store_success in Hok as [Hcut Hfs]. eauto.
      * rewrite downloadPDF_failed in Hok; [done | done |].
        intros resp' E. rewrite Hnet in E. injection E as <-. done.
    + rewrite downloadPDF_failed in Hok; [done | done |].
      intros resp' E. rewrite Hnet in E. done.
  - intros Hfile resp n Hnet Hcut.
    destruct (decide (StatusCode resp = 200)) as [Hst|Hst].
    + rewrite (downloadPDF_200 _ _ _ _ resp) by done.
      apply fetch_and_store_cut, Hcut.
    + rewrite downloadPDF_failed; [| done |].
      * cbn [fst snd]. eexists. split; [reflexivity |].
        rewrite Hnet. done.
      * intros resp' E. rewrite Hnet in E. injection E as <-. done.
Qed.

Lemma success_means_full_copy_witness :
  fs (snd (downloadPDF net_example pdf_a "PDFs" w_empty)) !! "PDFs/a.pdf"
  = Some (File "%PDF-a") ∧
  ∃ e, fst (downloadPDF net_example pdf_d "PDFs" w_empty) = Some e.
Proof.
  pose proof (success_means_full_copy net_example pdf_a "PDFs" w_empty) as [Hok _].
  pose proof (success_means_full_copy net_example pdf_d "PDFs" w_empty) as [_ Hcut].
  split.
  - destruct Hok as [[[data H] _] | (_ & resp & Hnet & _ & _ & Hfs)].
    + vm_compute. reflexivity.
    + vm_compute in H. discriminate.
    + vm_compute in Hnet. injection Hnet as <-. exact Hfs.
  - destruct (Hcut (λ '(ex_intro _ data H), ltac:(vm_compute in H; discriminate))
                (mkResponse 200 (mkBody "%PDF-d" (Some 3))) 3 eq_refl eq_refl)
      as (e & He & _).
    exists e. exact He.
Defined.

(** C6 (as stated, refuted): the folder is not ensured before the GET.
    With no [PDFs] folder and a 404 answer the GET is made and the folder
    is still missing afterwards; when the download succeeds, the GET comes
    first and the folder is created after it. *)
Lemma folder_before_get_refuted :
  let failed := snd (downloadPDF net_example pdf_b "PDFs" w_empty) in
  let fetched := snd (downloadPDF net_example pdf_a "PDFs" w_empty) in
  trace failed = [EvGet pdf_b] ∧
  os.Stat (fs failed) "PDFs" = inr ErrNotExist ∧
  trace fetched
  = [EvGet pdf_a; EvMkdirAll "PDFs"; EvCreate "PDFs/a.pdf";
     EvWrite "PDFs/a.pdf" "%PDF-a"].
Proof. vm_compute. done. Qed.

(** C6 (amended): when the destination file does not exist yet,
    [downloadPDF] first performs the GET; only after a 200 answer does it
    look at the destination folder: a folder that [os.Stat] reports
    missing is created recursively by [MkdirAll] and is a directory
    afterwards, a folder that is there is left alone, without error; the
    file is created and written only after that step. *)
Theorem folder_after_get (net : Network) (pdfURL folder : gostring) (w : World)
    (resp : Response) :
  ¬ file_present (fs w) (destination pdfURL folder) →
  net (trace w) pdfURL = Some resp → StatusCode resp = 200 →
  let dest := destination pdfURL folder in
  let missing := os.IsNotExist (os.Stat (fs w) folder) in
  ∃ file_steps,
    trace (snd (downloadPDF net pdfURL folder w))
    = trace w ++ EvGet pdfURL
                :: (if missing then [EvMkdirAll folder] else []) ++ file_steps ∧
    (file_steps = [] ∨ file_steps = [EvCreate dest] ∨
     ∃ data, file_steps = [EvCreate dest; EvWrite dest data]) ∧
    (missing = true → file_steps ≠ [] →
     ∃ m1, os.MkdirAll (fs w) folder = inl m1 ∧ os.Stat m1 folder = inl Dir) ∧
    (os.Stat (fs w) folder = inl Dir →
     missing = false ∧ file_steps ≠ [] ∧ os.MkdirAll (fs w) folder = inl (fs w)).
Proof.
  intros Hfile Hnet Hst dest missing. subst dest.
  rewrite (downloadPDF_200 _ _ _ _ resp) by done. fold missing.
  assert (Hdirmiss : os.Stat (fs w) folder = inl Dir → missing = false)
    by (intros Hdir; subst missing; rewrite Hdir; done).
  clearbody missing.
  destruct (fetch_and_store_trace missing pdfURL folder
              (destination pdfURL folder) resp w) as (rest & Htr & Hrest & Hm).
  exists rest. split; [exact Htr |]. split; [| split].
  - destruct Hrest as [-> | [-> | ->]]; eauto.
  - intros Hmiss Hne. destruct (Hm Hne) as [m1 E]. rewrite Hmiss in E.
    exists m1. split; [exact E | eapply MkdirAll_Dir, E].
  - intros Hdir. specialize (Hdirmiss Hdir). subst missing.
    split; [reflexivity |]. split; [| apply MkdirAll_existing, Hdir].
    intros ->. revert Htr. unfold fetch_and_store.
    destruct (os.Create (fs w) (destination pdfURL folder));
      cbn [snd trace app]; rewrite <- ?app_assoc; intros E;
      apply app_inv_head in E; discriminate.
Qed.

Lemma folder_after_get_witness :
  ∃ file_steps,
    trace (snd (downloadPDF net_example pdf_a "PDFs" w_empty))
    = trace w_empty ++ EvGet pdf_a :: [EvMkdirAll "PDFs"] ++ file_steps.
Proof.
  assert (Hfile : ¬ file_present (fs w_empty) (destination pdf_a "PDFs")).
  { intros [data H]. vm_compute in H. discriminate. }
  destruct (folder_after_get net_example pdf_a "PDFs" w_empty
              (mkResponse 200 (mkBody "%PDF-a" None)) Hfile eq_refl eq_refl)
    as (steps & Htr & _).
  exists steps. exact Htr.
Defined.

(** * The batch *)

(** C7: in the loop of [main] the download of one link never keeps
    another from being handled.  Whatever the links before it returned,
    every link is handed to [downloadPDF] in the state they left; a link
    whose file is not there gets its request; the result of that call is
    logged for that link, as a failure with its error exactly when the
    call returned one; and the loop goes on with the links after it.  The
    log of a pass therefore holds one result per link, in order, each the
    result of the link's own call.  [main] runs this loop over the links
    extracted from the page file, in the state the fetch of the page
    left, and logs the extraction error and stops when the file cannot be
    read.  With three links of which the second is answered 404, the
    first and the third are downloaded and the second is reported as
    failed, and the run goes on to the end. *)
Theorem failure_isolation (net : Network) (links : list gostring)
    (folder : gostring) (w : World) :
  (∀ done_ link rest_,
     let before := snd (download_each net done_ folder w) in
     let r := downloadPDF net link folder before in
     let after :=
       mkWorld (fs (snd r))
         (trace (snd r)
          ++ [EvLog match fst r with
                    | Some e => LogFailed link e
                    | None => LogDownloaded link
                    end]) in
     snd (download_each net (done_ ++ [link]) folder w) = after ∧
     download_each net (done_ ++ link :: rest_) folder w
     = download_each net rest_ folder after ∧
     (¬ file_present (fs before) (destination link folder) →
      ∃ evs, trace (snd r) = trace before ++ EvGet link :: evs)) ∧
  (∃ evs, trace (snd (download_each net links folder w)) = trace w ++ evs ∧
          map fst (results_logged evs) = links ∧
          ∀ i link, links !! i = Some link →
            results_logged evs !! i
            = Some (link,
                    fst (downloadPDF net link folder
                           (snd (download_each net (take i links) folder w))))) ∧
  (∀ done_ rest_, download_each net (done_ ++ rest_) folder w
                  = download_each net rest_ folder
                      (snd (download_each net done_ folder w))) ∧
  main net w
  = (let w0 := snd (createDirectory folderName w) in
     let w1 := snd (downloadFileUsingURLandFilePath net urlFromChemicalGuys
                      localURLFilePath w0) in
     match os.ReadFile (fs w1) localURLFilePath with
     | inl data => download_each net (extractURLs data) folderName w1
     | inr _ =>
         (tt, mkWorld (fs w1) (trace w1 ++ [EvLog (LogExtractError ErrReadFile)]))
     end) ∧
  results_logged (trace (snd (main net_site w_empty)))
  = [(pdf_a, None); (pdf_b, Some (ErrStatus 404)); (pdf_c, None)] ∧
  (let w' := snd (download_each net_example [pdf_a; pdf_b; pdf_c] "PDFs" w_empty) in
   results_logged (trace w')
   = [(pdf_a, None); (pdf_b, Some (ErrStatus 404)); (pdf_c, None)] ∧
   fs w' !! "PDFs/a.pdf" = Some (File "%PDF-a") ∧
   fs w' !! "PDFs/b.pdf" = None ∧
   fs w' !! "PDFs/c.pdf" = Some (File "%PDF-c")).
Proof.
  split.
  { intros done_ link rest_. cbv zeta. split; [apply download_each_snoc |].
    split; [| apply downloadPDF_requests].
    rewrite download_each_app, download_each_cons. reflexivity. }
  split; [apply download_each_results |].
  split; [intros; apply download_each_app |].
  split; [apply main_run |].
  vm_compute. done.
Qed.

(** * Further properties of the extractors *)

(** Every element of [FindAllStringSubmatch] is an attribute assignment
    of the text, with the groups of its value. *)
Lemma find_all_shape (s : gostring) :
  ∀ skip,
    Forall (λ m, ∃ name q1 v q2 l r,
              attr_name name ∧ is_quote q1 = true ∧ is_quote q2 = true ∧
              v ≠ [] ∧ forallb not_quote v = true ∧
              s = l ++ assignment name q1 v q2 ++ r ∧
              m = [assignment name q1 v q2;
                   fst (split_scheme v); snd (split_scheme v)])
           (regexp.find_all urlRegex 2 skip s).
Proof.
  induction s as [|a s IH]; intros skip.
  - destruct skip; cbn; constructor.
  - assert (Hshift : ∀ k,
      Forall (λ m, ∃ name q1 v q2 l r,
                attr_name name ∧ is_quote q1 = true ∧ is_quote q2 = true ∧
                v ≠ [] ∧ forallb not_quote v = true ∧
                a :: s = l ++ assignment name q1 v q2 ++ r ∧
                m = [assignment name q1 v q2;
                     fst (split_scheme v); snd (split_scheme v)])
             (regexp.find_all urlRegex 2 k s)).
    { intros k. eapply Forall_impl; [apply IH |]. cbv beta.
      intros m (name & q1 & v & q2 & l & r & Hn & H1 & H2 & Hne & Hv & -> & ->).
      exists name, q1, v, q2, (a :: l), r. done. }
    cbn [regexp.find_all]. destruct skip as [|skip]; [| apply Hshift].
    destruct (regexp.match_here urlRegex (a :: s)) as [[rest c]|] eqn:E;
      [| apply Hshift].
    constructor; [| apply Hshift].
    pose proof E as E'.
    apply urlRegex_match_inv in E'
      as (name & q1 & v & q2 & Hn & H1 & H2 & Hne & Hv & Hs).
    rewrite Hs in E. rewrite urlRegex_match in E by done. injection E as <-.
    exists name, q1, v, q2, [], rest. rewrite Hs.
    rewrite submatch_groups, consumed_app. done.
Qed.

(** X1: the regex extractor invents nothing: every URL it returns is
    the value of an [href]/[src] assignment of the text, taken as it
    stands, or that value with [https:] in front when it starts with
    [//]; it is not empty and holds no quote character. *)
Theorem extracted_urls_come_from_text (content : gostring) :
  Forall (λ u, ∃ v, assigned_in content v ∧ v ≠ [] ∧
                    forallb not_quote v = true ∧
                    (u = v ∨ (u = "https:" ++ v ∧ strings.HasPrefix v "//" = true)) ∧
                    u ≠ [] ∧ forallb not_quote u = true)
         (extractURLs content).
Proof.
  rewrite extractURLs_filter. apply List.Forall_forall. intros u Hu.
  apply List.filter_In in Hu as [Hu _]. apply List.in_map_iff in Hu as (m & <- & Hm).
  pose proof (find_all_shape content 0) as Hall.
  rewrite List.Forall_forall in Hall. apply Hall in Hm
    as (name & q1 & v & q2 & l & r & Hn & H1 & H2 & Hne & Hv & Hc & ->).
  exists v. split; [exists l, name, q1, q2, r; done |].
  split; [done |]. split; [done |].
  destruct (fullURL_of_value (assignment name q1 v q2) v) as [E | [E Hp]];
    rewrite E.
  - split; [auto |]. done.
  - split; [auto |]. split; [done |]. simpl. exact Hv.
Qed.

(** X2: a text in which neither [href=] nor [src=] occurs yields no
    link at all. *)
Theorem no_assignment_no_links (content : gostring) :
  strings.Contains content "href=" = false →
  strings.Contains content "src=" = false →
  regexp.FindAllStringSubmatch urlRegex 2 content = [] ∧
  extractURLs content = [].
Proof.
  intros Hh Hs.
  assert (H : regexp.FindAllStringSubmatch urlRegex 2 content = []).
  { unfold regexp.FindAllStringSubmatch.
    pose proof (find_all_shape content 0) as Hall.
    destruct (regexp.find_all urlRegex 2 0 content) as [|m ms]; [reflexivity |].
    apply Forall_inv in Hall
      as (name & q1 & v & q2 & l & r & [-> | ->] & _ & _ & _ & _ & Hc & _).
    - assert (Hin : strings.Contains content "href=" = true);
        [| rewrite Hin in Hh; discriminate].
      apply Contains_true. exists l, (q1 :: v ++ [q2] ++ r).
      rewrite Hc. unfold assignment. rewrite <- !app_assoc. simpl.
      rewrite <- !app_assoc. reflexivity.
    - assert (Hin : strings.Contains content "src=" = true);
        [| rewrite Hin in Hs; discriminate].
      apply Contains_true. exists l, (q1 :: v ++ [q2] ++ r).
      rewrite Hc. unfold assignment. rewrite <- !app_assoc. simpl.
      rewrite <- !app_assoc. reflexivity. }
  split; [exact H |]. unfold extractURLs. rewrite H. reflexivity.
Qed.

Lemma no_assignment_no_links_witness :
  extractURLs "<html><body><p>No documents yet.</p></body></html>" = [].
Proof.
  exact (proj2 (no_assignment_no_links
                  "<html><body><p>No documents yet.</p></body></html>"
                  eq_refl eq_refl)).
Defined.

(** One step of the [Each] loop of the goquery revision: nothing is
    added, or one absolute link resolved from the [href] of the
    element. *)
Lemma each_step (ul : gostring → gostring) (acc : list gostring)
    (s : list (gostring * gostring)) :
  goquery_rev.each ul acc s = acc ∨
  ∃ href u,
    goquery_rev.each ul acc s = acc ++ [u] ∧
    html.Attr s "href" = Some href ∧
    strings.Contains (strings.ToLower ul href) ".pdf" = true ∧
    resolved_from href u ∧ is_absolute u = true.
Proof.
  unfold goquery_rev.each, resolved_from, is_absolute.
  destruct (html.Attr s "href") as [href|]; [| auto].
  destruct (strings.Contains (strings.ToLower ul href) ".pdf") eqn:Hpdf; [| auto].
  destruct (strings.HasPrefix href "//") eqn:H2.
  - apply HasPrefix_true in H2 as [r ->]. right.
    exists ("//" ++ r), ("https:" ++ "//" ++ r). split; [reflexivity |].
    repeat split; auto.
  - destruct (strings.HasPrefix href "/") eqn:H1.
    + apply HasPrefix_true in H1 as [r ->]. right.
      exists ("/" ++ r), (goquery_rev.base ++ "/" ++ r).
      split; [reflexivity |]. repeat split; auto.
    + destruct (strings.HasPrefix href "http://" || strings.HasPrefix href "https://")
        eqn:Habs; [| auto].
      right. exists href, href. repeat split; auto.
Qed.

(** X3: every link [getSDSLinks] returns is absolute ([http://] or
    [https://]) and is resolved from the [href] of an anchor of the
    document whose lower-cased value contains [.pdf]: the value itself,
    [https:] plus a protocol-relative value, or the site plus a path.
    There is at most one link per anchor. *)
Theorem getSDSLinks_links (ul : gostring → gostring) (doc : list html.node) :
  Forall (λ u, is_absolute u = true ∧
               ∃ attrs href,
                 In attrs (html.Find doc "a") ∧
                 html.Attr attrs "href" = Some href ∧
                 strings.Contains (strings.ToLower ul href) ".pdf" = true ∧
                 resolved_from href u)
         (goquery_rev.getSDSLinks ul doc) ∧
  length (goquery_rev.getSDSLinks ul doc) ≤ length (html.Find doc "a").
Proof.
  unfold goquery_rev.getSDSLinks.
  set (P := λ u, is_absolute u = true ∧
                 ∃ attrs href,
                   In attrs (html.Find doc "a") ∧
                   html.Attr attrs "href" = Some href ∧
                   strings.Contains (strings.ToLower ul href) ".pdf" = true ∧
                   resolved_from href u).
  enough (H : ∀ sel acc,
            (∀ s, In s sel → In s (html.Find doc "a")) → Forall P acc →
            Forall P (fold_left (goquery_rev.each ul) sel acc) ∧
            length (fold_left (goquery_rev.each ul) sel acc)
            ≤ length acc + length sel).
  { destruct (H (html.Find doc "a") []) as [H1 H2]; [auto | constructor |].
    split; [exact H1 | exact H2]. }
  induction sel as [|s sel IH]; intros acc Hsub Hacc; cbn [fold_left length].
  - split; [exact Hacc | lia].
  - destruct (each_step ul acc s) as [-> | (href & u & -> & Hattr & Hpdf & Hres & Habs)].
    + destruct (IH acc) as [H1 H2]; [intros; apply Hsub; right; done | done |].
      split; [exact H1 | lia].
    + destruct (IH (acc ++ [u])) as [H1 H2].
      * intros; apply Hsub; right; done.
      * apply Forall_app. split; [done |]. constructor; [| constructor].
        split; [exact Habs |]. exists s, href. split; [apply Hsub; left; done |].
        done.
      * split; [exact H1 |]. rewrite length_app in H2. simpl in H2. lia.
Qed.

(** * Further properties of file names and of the file system steps *)

Lemma Base_one_element (p : gostring) :
  path.Base p = "/" ∨ strings.one_of (path.Base p) "/" = false.
Proof.
  unfold path.Base. destruct p as [|c p]; [right; reflexivity |].
  set (p1 := path.trim_slashes (c :: p)).
  pose proof (CutLast1_spec p1 "/") as H.
  destruct (strings.CutLast1 p1 "/") as [[b a]|].
  - destruct H as [_ Ha]. destruct a; [left; reflexivity | right; exact Ha].
  - destruct p1; [left; reflexivity | right; exact H].
Qed.

Lemma ReplaceAll1_space (s : gostring) :
  strings.one_of (strings.ReplaceAll1 s " " "_") " " = false ∧
  strings.one_of (strings.ReplaceAll1 s " " "_") "/" = strings.one_of s "/".
Proof.
  unfold strings.one_of.
  induction s as [|c s [IH1 IH2]]; [done |]. cbn [strings.ReplaceAll1].
  destruct (Ascii.eqb_spec c " ") as [->|Hne]; cbn [app existsb].
  - rewrite IH1, IH2. done.
  - rewrite IH1, IH2. split; [| reflexivity].
    destruct (Ascii.eqb_spec " " c) as [<-|]; done.
Qed.

Lemma ReplaceAll1_slash : strings.ReplaceAll1 "/" " " "_" = "/".
Proof. reflexivity. Qed.

Lemma lower_byte_facts (c : ascii) :
  strings.is_upper (strings.lower_byte c) = false ∧
  Ascii.eqb " " (strings.lower_byte c) = Ascii.eqb " " c ∧
  Ascii.eqb "/" (strings.lower_byte c) = Ascii.eqb "/" c.
Proof. destruct c as [[] [] [] [] [] [] [] []]; vm_compute; done. Qed.

Lemma lower_keeps_bytes (s : gostring) :
  existsb strings.is_upper (map strings.lower_byte s) = false ∧
  strings.one_of (map strings.lower_byte s) " " = strings.one_of s " " ∧
  strings.one_of (map strings.lower_byte s) "/" = strings.one_of s "/".
Proof.
  unfold strings.one_of. induction s as [|c s (IH1 & IH2 & IH3)]; [done |].
  cbn [map existsb]. destruct (lower_byte_facts c) as (H1 & H2 & H3).
  rewrite H1, H2, H3, IH1, IH2, IH3. done.
Qed.

(** X4: the derived file name never holds a space and is a single path
    element: it holds no slash unless it is the lone slash that
    [path.Base] returns for a path of slashes.  In the last revision an
    ASCII name is the same name byte-wise lower-cased: still one element
    without space, and without upper-case letter. *)
Theorem derived_name_is_one_element (ul : gostring → gostring) (rawURL : gostring) :
  let n := getFileNamesFromURLs rawURL in
  let n' := last.getFileNamesFromURLs ul rawURL in
  strings.one_of n " " = false ∧
  (n = "/" ∨ strings.one_of n "/" = false) ∧
  n' = strings.ToLower ul n ∧
  (forallb strings.is_ascii n = true →
   n' = map strings.lower_byte n ∧
   strings.one_of n' " " = false ∧
   (n' = "/" ∨ strings.one_of n' "/" = false) ∧
   existsb strings.is_upper n' = false).
Proof.
  intros n n'. subst n n'.
  unfold getFileNamesFromURLs, last.getFileNamesFromURLs.
  destruct (url.Parse rawURL) as [u|].
  2:{ repeat split; auto. }
  set (b := path.Base (url.Path u)).
  destruct (ReplaceAll1_space b) as [Hsp Hsl].
  assert (Hel : strings.ReplaceAll1 b " " "_" = "/"
                ∨ strings.one_of (strings.ReplaceAll1 b " " "_") "/" = false).
  { destruct (Base_one_element (url.Path u)) as [E|E]; fold b in E.
    - left. rewrite E. reflexivity.
    - right. rewrite Hsl. exact E. }
  split; [exact Hsp |]. split; [exact Hel |]. split; [reflexivity |].
  intros Hascii. unfold strings.ToLower. rewrite Hascii.
  destruct (lower_keeps_bytes (strings.ReplaceAll1 b " " "_")) as (H1 & H2 & H3).
  split; [reflexivity |]. split; [rewrite H2; exact Hsp |].
  split; [| exact H1].
  destruct Hel as [E|E]; [left; rewrite E; reflexivity | right; rewrite H3; exact E].
Qed.

(** ** What the file system steps keep *)

Lemma fs_keeps_refl (m : FS) : fs_keeps m m.
Proof. split; eauto. Qed.

Lemma fs_keeps_trans (m1 m2 m3 : FS) :
  fs_keeps m1 m2 → fs_keeps m2 m3 → fs_keeps m1 m3.
Proof.
  intros [D1 F1] [D2 F2]. split; [auto |].
  intros q d H. apply F1 in H as [d' H]. eauto.
Qed.

Lemma node_at_lookup (m : FS) (q : gostring) (d : gostring) :
  os.node_at m q = Some (File d) → m !! q = Some (File d).
Proof.
  unfold os.node_at.
  destruct (os.always_dir q); done.
Qed.

Lemma node_at_None (m : FS) (q : gostring) :
  os.node_at m q = None → m !! q = None.
Proof.
  unfold os.node_at.
  destruct (os.always_dir q); done.
Qed.

Lemma node_at_keeps_dir (m m' : FS) (q : gostring) :
  fs_keeps m m' → os.node_at m q = Some Dir → os.node_at m' q = Some Dir.
Proof.
  intros [D _]. unfold os.node_at.
  destruct (os.always_dir q); auto.
Qed.

Lemma insert_free_keeps (m : FS) (q : gostring) (n : Node) :
  m !! q = None → fs_keeps m (<[q := n]> m).
Proof.
  intros Hq. split.
  - intros q' H. rewrite lookup_insert_ne; [done | congruence].
  - intros q' d H. exists d. rewrite lookup_insert_ne; [done | congruence].
Qed.

Lemma insert_file_keeps (m : FS) (q : gostring) (d : gostring) :
  m !! q ≠ Some Dir → fs_keeps m (<[q := File d]> m).
Proof.
  intros Hq. split.
  - intros q' H. rewrite lookup_insert_ne; [done | congruence].
  - intros q' d0 H. destruct (decide (q = q')) as [->|Hne].
    + exists d. apply lookup_insert_eq.
    + exists d0. rewrite lookup_insert_ne; done.
Qed.

Lemma mkdir_chain_keeps (dirs : list gostring) :
  ∀ m m', os.mkdir_chain m dirs = inl m' →
    fs_keeps m m' ∧ (∀ q, q ∉ dirs → m' !! q = m !! q).
Proof.
  induction dirs as [|d dirs IH]; intros m m'; cbn [os.mkdir_chain].
  - intros [= ->]. split; [apply fs_keeps_refl | done].
  - destruct (os.node_at m d) as [[data|]|] eqn:E; [done | |].
    + intros H. apply IH in H as [Hk Hf]. split; [exact Hk |].
      intros q Hq. apply Hf. intros Hin. apply Hq. right. exact Hin.
    + intros H. apply IH in H as [Hk Hf]. apply node_at_None in E. split.
      * eapply fs_keeps_trans; [apply insert_free_keeps, E | exact Hk].
      * intros q Hq. rewrite Hf.
        -- apply lookup_insert_ne. intros ->. apply Hq. left.
        -- intros Hin. apply Hq. right. exact Hin.
Qed.

Lemma Create_inv (m m' : FS) (name : gostring) :
  os.Create m name = inl m' →
  name ≠ [] ∧ os.walk m (os.visited name) = None ∧
  os.node_at m (path.Clean name) ≠ Some Dir ∧
  m' = <[path.Clean name := File []]> m.
Proof.
  unfold os.Create. destruct name as [|c name]; [done |].
  destruct (os.walk m (os.visited (c :: name))); [done |].
  destruct (os.node_at m (path.Clean (c :: name))) as [[d|]|] eqn:E;
    intros [= <-]; done.
Qed.

Lemma node_at_not_dir (m : FS) (q : gostring) :
  os.node_at m q ≠ Some Dir →
  m !! q ≠ Some Dir ∧ ∀ m', os.node_at m' q = m' !! q.
Proof.
  unfold os.node_at.
  destruct (os.always_dir q); done.
Qed.

(** The file a successful [Create] and the copy leave behind is found
    by [Stat], with the bytes that were copied. *)
Lemma written_file_present (m m2 : FS) (name data : gostring) :
  os.Create m name = inl m2 →
  os.Stat (<[path.Clean name := File data]> m2) name = inl (File data) ∧
  fs_keeps m (<[path.Clean name := File data]> m2) ∧
  (∀ q, q ≠ path.Clean name →
        (<[path.Clean name := File data]> m2) !! q = m !! q).
Proof.
  intros H. apply Create_inv in H as (Hne & Hwalk & Hnode & ->).
  set (p := path.Clean name) in *.
  destruct (node_at_not_dir _ _ Hnode) as [Hraw Hat].
  rewrite insert_insert_eq. split; [| split].
  - unfold os.Stat. destruct name as [|c name]; [done |]. fold p.
    rewrite walk_dirs.
    + rewrite Hat, lookup_insert_eq. reflexivity.
    + apply walk_None_dirs in Hwalk. eapply Forall_impl; [exact Hwalk |].
      cbv beta. intros d Hd. eapply node_at_keeps_dir; [| exact Hd].
      apply insert_file_keeps, Hraw.
  - apply insert_file_keeps, Hraw.
  - intros q Hq. apply lookup_insert_ne. congruence.
Qed.

Lemma Mkdir_inv (m m' : FS) (name : gostring) :
  os.Mkdir m name = inl m' →
  name ≠ [] ∧ os.walk m (os.visited name) = None ∧
  os.node_at m (path.Clean name) = None ∧
  m' = <[path.Clean name := Dir]> m.
Proof.
  unfold os.Mkdir. destruct name as [|c name]; [done |].
  destruct (os.walk m (os.visited (c :: name))); [done |].
  destruct (os.node_at m (path.Clean (c :: name))) eqn:E; intros [= <-]; done.
Qed.

Lemma Mkdir_Dir (m m' : FS) (name : gostring) :
  os.Mkdir m name = inl m' → os.Stat m' name = inl Dir ∧ fs_keeps m m'.
Proof.
  intros H. apply Mkdir_inv in H as (Hne & Hwalk & Hnode & ->).
  set (p := path.Clean name) in *.
  assert (Hk : fs_keeps m (<[p := Dir]> m))
    by (apply insert_free_keeps, node_at_None, Hnode).
  split; [| exact Hk].
  unfold os.Stat. destruct name as [|c name]; [done |]. fold p.
  rewrite walk_dirs.
  - unfold os.node_at in *.
    destruct (os.always_dir p); [done |].
    rewrite lookup_insert_eq. reflexivity.
  - apply walk_None_dirs in Hwalk. eapply Forall_impl; [exact Hwalk |].
    cbv beta. intros d Hd. eapply node_at_keeps_dir; [exact Hk | exact Hd].
Qed.

Lemma Stat_Mkdir_exists (m : FS) (name : gostring) (n : Node) :
  os.Stat m name = inl n → os.Mkdir m name = inr ErrExist.
Proof.
  unfold os.Stat, os.Mkdir. destruct name as [|c name]; [done |].
  destruct (os.walk m (os.visited (c :: name))); [done |].
  destruct (os.node_at m (path.Clean (c :: name))); done.
Qed.

(** X7: [createDirectory] never stops the program.  When the name
    exists already, as a folder or as a file, nothing changes and the
    error is only logged; when [os.Mkdir] succeeds the name is a directory
    afterwards and everything else is kept; any other error is logged and
    leaves the file system as it was. *)
Theorem createDirectory_outcome (name : gostring) (w : World) :
  let w' := snd (createDirectory name w) in
  (∀ n, os.Stat (fs w) name = inl n →
        fs w' = fs w ∧
        trace w' = trace w ++ [EvMkdir name; EvLog (LogError ErrExist)]) ∧
  (∀ m', os.Mkdir (fs w) name = inl m' →
         fs w' = m' ∧ os.Stat (fs w') name = inl Dir ∧ fs_keeps (fs w) (fs w') ∧
         trace w' = trace w ++ [EvMkdir name]) ∧
  (∀ e, os.Mkdir (fs w) name = inr e →
        fs w' = fs w ∧
        trace w' = trace w ++ [EvMkdir name; EvLog (LogError e)]).
Proof.
  assert (Hrun : createDirectory name w
                 = match os.Mkdir (fs w) name with
                   | inl m' => (tt, mkWorld m' (trace w ++ [EvMkdir name]))
                   | inr e => (tt, mkWorld (fs w)
                                     ((trace w ++ [EvMkdir name]) ++ [EvLog (LogError e)]))
                   end).
  { unfold createDirectory. run_prog. cbn [fs trace].
    destruct (os.Mkdir (fs w) name); reflexivity. }
  cbv zeta. rewrite Hrun. split; [| split].
  - intros n Hn. rewrite (Stat_Mkdir_exists _ _ _ Hn). cbn [snd fs trace].
    rewrite <- app_assoc. done.
  - intros m' Hm. rewrite Hm. cbn [snd fs trace].
    destruct (Mkdir_Dir _ _ _ Hm) as [H1 H2]. done.
  - intros e He. rewrite He. cbn [snd fs trace]. rewrite <- app_assoc. done.
Qed.

Lemma createDirectory_outcome_witness :
  fs (snd (createDirectory "PDFs" w_with_a)) = fs w_with_a ∧
  os.Stat (fs (snd (createDirectory "PDFs" w_empty))) "PDFs" = inl Dir.
Proof.
  destruct (createDirectory_outcome "PDFs" w_with_a) as (Hex & _ & _).
  destruct (createDirectory_outcome "PDFs" w_empty) as (_ & Hnew & _).
  split.
  - apply (Hex Dir). vm_compute. reflexivity.
  - apply (Hnew (<["PDFs" := Dir]> ∅)). vm_compute. reflexivity.
Defined.

(** * Further properties of the page fetcher and of the downloader *)

Lemma downloadFile_run (net : Network) (u filepath : gostring) (w : World) :
  downloadFileUsingURLandFilePath net u filepath w
  = let t := trace w ++ [EvGet u] in
    match net (trace w) u with
    | None => (Some ErrTransport, mkWorld (fs w) t)
    | Some resp =>
        if negb (StatusCode resp =? 200)
        then (Some (ErrBadStatus (StatusCode resp)), mkWorld (fs w) t)
        else
          match os.Create (fs w) filepath with
          | inr e => (Some e, mkWorld (fs w) (t ++ [EvCreate filepath]))
          | inl m2 =>
              let data := fst (received (body resp)) in
              (snd (received (body resp)),
               mkWorld (<[path.Clean filepath := File data]> m2)
                 (t ++ [EvCreate filepath; EvWrite filepath data]))
          end
    end.
Proof.
  unfold downloadFileUsingURLandFilePath, bind, http_Get. cbv zeta.
  destruct (net (trace w) u) as [resp|]; [| reflexivity].
  destruct (negb (StatusCode resp =? 200)); [reflexivity |].
  run_prog. cbn [fs trace].
  destruct (os.Create (fs w) filepath) as [m2|e]; cbn [fs trace].
  - destruct (received (body resp)) as [data err]. cbn [fst snd fs trace].
    rewrite <- !app_assoc. reflexivity.
  - rewrite <- !app_assoc. reflexivity.
Qed.

(** X5: when the GET of the page fails or is answered with a status
    other than 200, [downloadFileUsingURLandFilePath] returns the error
    and has only made the request: no file is created or truncated. *)
Theorem page_fetch_failure_changes_nothing (net : Network)
    (u filepath : gostring) (w : World) :
  (∀ resp, net (trace w) u = Some resp → StatusCode resp ≠ 200) →
  let r := downloadFileUsingURLandFilePath net u filepath w in
  fst r = Some match net (trace w) u with
               | Some resp => ErrBadStatus (StatusCode resp)
               | None => ErrTransport
               end ∧
  fs (snd r) = fs w ∧
  trace (snd r) = trace w ++ [EvGet u].
Proof.
  intros Hnet r. subst r. rewrite downloadFile_run. cbv zeta.
  destruct (net (trace w) u) as [resp|] eqn:E; [| done].
  specialize (Hnet _ eq_refl). apply Nat.eqb_neq in Hnet. rewrite Hnet. done.
Qed.

Lemma page_fetch_failure_changes_nothing_witness :
  fs (snd (downloadFileUsingURLandFilePath net_example pdf_b "page.html" w_with_a))
  = fs w_with_a.
Proof.
  assert (Hnet : ∀ resp, net_example (trace w_with_a) pdf_b = Some resp →
                         StatusCode resp ≠ 200).
  { intros resp H. vm_compute in H. injection H as <-. simpl. lia. }
  exact (proj1 (proj2 (page_fetch_failure_changes_nothing net_example pdf_b
                         "page.html" w_with_a Hnet))).
Defined.

(** X6: what [downloadFileUsingURLandFilePath] stores is what
    [ExtractURLsFromHTMLFile] reads back: after a 200 answer and a
    successful [os.Create], the extraction from the same path returns the
    links of the bytes that arrived, also when the transfer was cut and an
    error was returned; every other file is kept. *)
Theorem fetched_page_is_read_back (net : Network) (u filepath : gostring)
    (w : World) (resp : Response) (m2 : FS) :
  net (trace w) u = Some resp → StatusCode resp = 200 →
  os.Create (fs w) filepath = inl m2 →
  let r := downloadFileUsingURLandFilePath net u filepath w in
  let data := fst (received (body resp)) in
  fst r = snd (received (body resp)) ∧
  os.ReadFile (fs (snd r)) filepath = inl data ∧
  ExtractURLsFromHTMLFile filepath (snd r) = ((extractURLs data, None), snd r) ∧
  fs_keeps (fs w) (fs (snd r)) ∧
  (∀ q, q ≠ path.Clean filepath → fs (snd r) !! q = fs w !! q).
Proof.
  intros Hnet Hst Hc r data. subst r data. rewrite downloadFile_run. cbv zeta.
  rewrite Hnet, Hst, Hc. change (negb (200 =? 200)) with false.
  cbn [fst snd fs trace].
  destruct (written_file_present _ _ _ (fst (received (body resp))) Hc)
    as (Hstat & Hk & Hf).
  assert (Hread : os.ReadFile (<[path.Clean filepath:=File (received (body resp)).1]> m2)
                    filepath = inl (fst (received (body resp)))).
  { unfold os.ReadFile. rewrite Hstat. reflexivity. }
  split; [reflexivity |]. split; [exact Hread |].
  split; [| split; [exact Hk | exact Hf]].
  rewrite ExtractURLsFromHTMLFile_run. cbn [fs]. rewrite Hread. reflexivity.
Qed.

Lemma fetched_page_is_read_back_witness :
  fst (fst (ExtractURLsFromHTMLFile "page.html"
         (snd (downloadFileUsingURLandFilePath net_site urlFromChemicalGuys
                 "page.html" w_empty))))
  = [pdf_a; pdf_b; pdf_c].
Proof.
  destruct (fetched_page_is_read_back net_site urlFromChemicalGuys "page.html"
              w_empty (mkResponse 200 (mkBody sds_page None))
              (<["page.html" := File []]> ∅) eq_refl eq_refl eq_refl)
    as (_ & _ & H & _).
  rewrite H. vm_compute. reflexivity.
Defined.

(** ** The outcomes of [downloadPDF] *)

Lemma downloadPDF_outcome (net : Network) (pdfURL folder : gostring) (w : World) :
  download_outcome net pdfURL folder (destination pdfURL folder) w
    (downloadPDF net pdfURL folder w).
Proof.
  unfold download_outcome.
  destruct (file_present_dec (fs w) (destination pdfURL folder)) as [Hp|Hp].
  { left. split; [done |]. apply downloadPDF_skip, Hp. }
  right. destruct (net (trace w) pdfURL) as [resp|] eqn:Hnet.
  - destruct (decide (StatusCode resp = 200)) as [Hst|Hst].
    + right. split; [done |]. eexists resp, _. split; [done |]. split; [done |].
      apply downloadPDF_200; done.
    + left. split; [done |]. eexists. split; [| rewrite downloadPDF_failed; [rewrite Hnet; reflexivity | done |]].
      * discriminate.
      * intros resp' E. rewrite Hnet in E. injection E as <-. done.
  - left. split; [done |]. eexists. split; [| rewrite downloadPDF_failed; [rewrite Hnet; reflexivity | done |]].
    + discriminate.
    + intros resp' E. rewrite Hnet in E. done.
Qed.

Lemma downloadPDF_last_outcome (net : Network) (ul : gostring → gostring)
    (pdfURL folder : gostring) (w : World) :
  download_outcome net pdfURL folder (destination_last ul pdfURL folder) w
    (downloadPDF_last net ul pdfURL folder w).
Proof.
  unfold download_outcome.
  destruct (file_present_dec (fs w) (destination_last ul pdfURL folder)) as [Hp|Hp].
  { left. split; [done |]. apply downloadPDF_last_skip, Hp. }
  right. destruct (net (trace w) pdfURL) as [resp|] eqn:Hnet.
  - destruct (decide (StatusCode resp = 200)) as [Hst|Hst].
    + right. split; [done |]. eexists resp, _. split; [done |]. split; [done |].
      apply downloadPDF_last_200; done.
    + left. split; [done |]. eexists. split; [| rewrite downloadPDF_last_failed; [rewrite Hnet; reflexivity | done |]].
      * discriminate.
      * intros resp' E. rewrite Hnet in E. injection E as <-. done.
  - left. split; [done |]. eexists. split; [| rewrite downloadPDF_last_failed; [rewrite Hnet; reflexivity | done |]].
    + discriminate.
    + intros resp' E. rewrite Hnet in E. done.
Qed.

Lemma file_present_keeps (m m' : FS) (name : gostring) :
  fs_keeps m m' → file_present m name → file_present m' name.
Proof.
  intros Hk [d H]. unfold file_present, os.Stat in *.
  destruct name as [|c name]; [done |].
  set (p := path.Clean (c :: name)) in *.
  destruct (os.walk m (os.visited (c :: name))) eqn:Hw; [done |].
  destruct (os.node_at m p) as [n|] eqn:Hn; [| done].
  injection H as ->.
  rewrite walk_dirs.
  2:{ apply walk_None_dirs in Hw. eapply Forall_impl; [exact Hw |].
      cbv beta. intros q Hq. eapply node_at_keeps_dir; done. }
  assert (Hat : os.node_at m' p = m' !! p).
  { apply node_at_not_dir with (m := m). rewrite Hn. done. }
  apply node_at_lookup in Hn. destruct Hk as [_ Hf].
  apply Hf in Hn as [d' Hd']. rewrite Hat, Hd'. eauto.
Qed.

Lemma MkdirAll_keeps (m m' : FS) (name : gostring) :
  os.MkdirAll m name = inl m' →
  fs_keeps m m' ∧
  (∀ q, q ∉ os.visited name ++ [path.Clean name] →
        m' !! q = m !! q).
Proof.
  intros H. apply MkdirAll_chain in H as [_ H].
  apply mkdir_chain_keeps in H. exact H.
Qed.

Section Outcome.
Variables (net : Network) (pdfURL folder dest : gostring) (w : World).
Variable r : option error * World.
Hypothesis Hout : download_outcome net pdfURL folder dest w r.

Lemma fetch_and_store_facts (missing : bool) (resp : Response) :
  let s := fetch_and_store missing pdfURL folder dest resp w in
  fs_keeps (fs w) (fs (snd s)) ∧
  (∀ q, q ≠ path.Clean dest →
        q ∉ os.visited folder ++ [path.Clean folder] →
        fs (snd s) !! q = fs w !! q) ∧
  (fst s = None ∨ fst s = Some ErrSaving → file_present (fs (snd s)) dest) ∧
  (fst s = Some ErrSaving →
   ∃ n, cut_after (body resp) = Some n ∧
        fs (snd s) !! path.Clean dest
        = Some (File (take n (content (body resp))))).
Proof.
  unfold fetch_and_store.
  destruct (if missing then os.MkdirAll (fs w) folder else inl (fs w))
    as [m1|e] eqn:E1.
  2:{ cbn [fst snd fs]. split; [apply fs_keeps_refl |]. split; [done |].
      split; [intros [|]; done | done]. }
  assert (H1 : fs_keeps (fs w) m1 ∧
               (∀ q, q ∉ os.visited folder ++ [path.Clean folder] →
                     m1 !! q = fs w !! q)).
  { destruct missing.
    - apply MkdirAll_keeps, E1.
    - injection E1 as <-. split; [apply fs_keeps_refl | done]. }
  destruct H1 as [Hk1 Hf1].
  destruct (os.Create m1 dest) as [m2|e] eqn:E2.
  2:{ cbn [fst snd fs]. split; [exact Hk1 |]. split; [auto |].
      split; [intros [|]; done | done]. }
  cbv zeta. cbn [fst snd fs].
  destruct (written_file_present _ _ _ (fst (received (body resp))) E2)
    as (Hstat & Hk2 & Hf2).
  split; [eapply fs_keeps_trans; done |].
  split; [intros q Hq1 Hq2; rewrite Hf2, Hf1; done |].
  split; [intros _; eexists; exact Hstat |].
  unfold received. destruct (cut_after (body resp)) as [n|]; [| done].
  intros _. exists n. split; [reflexivity |]. cbn [fst]. apply lookup_insert_eq.
Qed.

Lemma outcome_keeps :
  fs_keeps (fs w) (fs (snd r)) ∧
  (∀ q, q ≠ path.Clean dest →
        q ∉ os.visited folder ++ [path.Clean folder] →
        fs (snd r) !! q = fs w !! q).
Proof using Hout.
  destruct Hout as [[_ ->] | [[_ (e & _ & ->)] | [_ (resp & missing & _ & _ & ->)]]].
  - split; [apply fs_keeps_refl | done].
  - split; [apply fs_keeps_refl | done].
  - destruct (fetch_and_store_facts missing resp) as (H1 & H2 & _). done.
Qed.

Lemma outcome_present :
  fst r = None ∨ fst r = Some ErrSaving → file_present (fs (snd r)) dest.
Proof using Hout.
  destruct Hout as [[Hp ->] | [[_ (e & He & ->)] | [_ (resp & missing & _ & _ & ->)]]].
  - intros _. exact Hp.
  - cbn [fst]. intros [|[= ->]]; done.
  - destruct (fetch_and_store_facts missing resp) as (_ & _ & H & _). exact H.
Qed.

Lemma outcome_partial :
  fst r = Some ErrSaving →
  ∃ resp n, net (trace w) pdfURL = Some resp ∧
            cut_after (body resp) = Some n ∧
            fs (snd r) !! path.Clean dest
            = Some (File (take n (content (body resp)))).
Proof using Hout.
  destruct Hout as [[Hp ->] | [[_ (e & He & ->)] | [_ (resp & missing & Hnet & _ & ->)]]].
  - done.
  - cbn [fst]. intros [= ->]. done.
  - destruct (fetch_and_store_facts missing resp) as (_ & _ & _ & H).
    intros E. destruct (H E) as (n & Hn & Hfs). eauto.
Qed.

Lemma outcome_history :
  ∃ evs, trace (snd r) = trace w ++ evs ∧
         (gets evs = [] ∨ gets evs = [pdfURL]) ∧
         (file_present (fs w) dest → gets evs = []) ∧
         results_logged evs = [].
Proof using Hout.
  destruct Hout as [[Hp ->] | [[Hp (e & _ & ->)] | [Hp (resp & missing & _ & _ & ->)]]].
  - exists [EvLog (LogSkipping dest)]. split; [reflexivity |].
    split; [left; reflexivity |]. split; reflexivity.
  - exists [EvGet pdfURL]. split; [reflexivity |].
    split; [right; reflexivity |]. split; [intros; contradiction | reflexivity].
  - destruct (fetch_and_store_trace missing pdfURL folder dest resp w)
      as (rest & -> & Hrest & _).
    exists (EvGet pdfURL :: (if missing then [EvMkdirAll folder] else []) ++ rest).
    split; [reflexivity |].
    split; [right | split; [intros; contradiction |]];
      destruct missing; destruct Hrest as [-> | [-> | ->]]; reflexivity.
Qed.
End Outcome.

(** ** Properties of [downloadPDF] *)

(** X8: once [downloadPDF] has returned [nil] for a URL, any later call
    whose URL derives the same destination, the same URL or another one
    with the same file name, is skipped whatever the network would answer:
    it returns [nil], logs the skip and leaves the file system as it is. *)
Theorem finished_download_is_skipped (net net' : Network)
    (pdfURL other folder : gostring) (w : World) (t : list event) :
  fst (downloadPDF net pdfURL folder w) = None →
  destination other folder = destination pdfURL folder →
  downloadPDF net' other folder
    (mkWorld (fs (snd (downloadPDF net pdfURL folder w))) t)
  = (None,
     mkWorld (fs (snd (downloadPDF net pdfURL folder w)))
             (t ++ [EvLog (LogSkipping (destination pdfURL folder))])).
Proof.
  intros Hnil Hdest.
  pose proof (outcome_present _ _ _ _ _ _ (downloadPDF_outcome net pdfURL folder w)
                (or_introl Hnil)) as Hp.
  rewrite downloadPDF_skip; cbn [fs trace]; rewrite Hdest; done.
Qed.

Lemma finished_download_is_skipped_witness :
  downloadPDF net_example "https://y.org/z/a.pdf?v=2" "PDFs"
    (mkWorld (fs (snd (downloadPDF net_example pdf_a "PDFs" w_empty))) [])
  = (None,
     mkWorld (fs (snd (downloadPDF net_example pdf_a "PDFs" w_empty)))
             [EvLog (LogSkipping "PDFs/a.pdf")]).
Proof.
  apply (finished_download_is_skipped net_example net_example pdf_a
           "https://y.org/z/a.pdf?v=2" "PDFs" w_empty []);
    vm_compute; reflexivity.
Defined.

(** X9: when the copy of the body is cut ([downloadPDF] returns the
    saving error), the bytes that arrived stay in the destination file,
    and the next call for the same URL is skipped and returns [nil]: the
    file is not fetched again. *)
Theorem cut_copy_is_kept_and_skipped (net : Network) (pdfURL folder : gostring)
    (w : World) :
  fst (downloadPDF net pdfURL folder w) = Some ErrSaving →
  (∃ resp n,
     net (trace w) pdfURL = Some resp ∧ cut_after (body resp) = Some n ∧
     fs (snd (downloadPDF net pdfURL folder w))
       !! path.Clean (destination pdfURL folder)
     = Some (File (take n (content (body resp))))) ∧
  ∀ net' t,
    downloadPDF net' pdfURL folder
      (mkWorld (fs (snd (downloadPDF net pdfURL folder w))) t)
    = (None,
       mkWorld (fs (snd (downloadPDF net pdfURL folder w)))
               (t ++ [EvLog (LogSkipping (destination pdfURL folder))])).
Proof.
  intros Herr.
  pose proof (downloadPDF_outcome net pdfURL folder w) as Hout.
  split.
  - exact (outcome_partial _ _ _ _ _ _ Hout Herr).
  - intros net' t. apply downloadPDF_skip. cbn [fs].
    exact (outcome_present _ _ _ _ _ _ Hout (or_intror Herr)).
Qed.

Lemma cut_copy_is_kept_and_skipped_witness :
  fs (snd (downloadPDF net_example pdf_d "PDFs" w_empty)) !! "PDFs/d.pdf"
  = Some (File "%PD") ∧
  fst (downloadPDF net_example pdf_d "PDFs"
         (mkWorld (fs (snd (downloadPDF net_example pdf_d "PDFs" w_empty))) []))
  = None.
Proof.
  assert (Herr : fst (downloadPDF net_example pdf_d "PDFs" w_empty)
                 = Some ErrSaving) by (vm_compute; reflexivity).
  destruct (cut_copy_is_kept_and_skipped net_example pdf_d "PDFs" w_empty Herr)
    as [(resp & n & Hnet & Hn & Hfs) Hskip].
  split.
  - vm_compute in Hnet. injection Hnet as <-. injection Hn as <-. exact Hfs.
  - rewrite (Hskip net_example []). reflexivity.
Defined.

(** A folder name that is not clean is resolved element by element:
    with [PDFs] there and [missing] not, [os.Stat] of [missing/../PDFs]
    fails, [os.MkdirAll] is called and creates [missing], and the file is
    written to [PDFs]. *)
Lemma downloadPDF_unclean_folder :
  let w := mkWorld (<["PDFs" := Dir]> ∅) [] in
  let r := downloadPDF net_example pdf_a "missing/../PDFs" w in
  fst r = None ∧
  trace (snd r)
  = [EvGet pdf_a; EvMkdirAll "missing/../PDFs";
     EvCreate "PDFs/a.pdf"; EvWrite "PDFs/a.pdf" "%PDF-a"] ∧
  fs (snd r) !! "missing" = Some Dir ∧
  fs (snd r) !! "PDFs/a.pdf" = Some (File "%PDF-a").
Proof. vm_compute. done. Qed.

(** X10: whatever the network answers, [downloadPDF] keeps what is on
    disk: directories stay directories, files stay files (the destination
    may get new content), a file that was present is still present, and the
    only paths whose entry can change are the destination, the folder and
    the directories the folder name passes through when it is resolved. *)
Theorem downloadPDF_touches_only_its_paths (net : Network)
    (pdfURL folder : gostring) (w : World) :
  let after := fs (snd (downloadPDF net pdfURL folder w)) in
  fs_keeps (fs w) after ∧
  (∀ name, file_present (fs w) name → file_present after name) ∧
  (∀ q, q ≠ path.Clean (destination pdfURL folder) →
        q ∉ os.visited folder ++ [path.Clean folder] →
        after !! q = fs w !! q).
Proof.
  cbv zeta.
  destruct (outcome_keeps _ _ _ _ _ _ (downloadPDF_outcome net pdfURL folder w))
    as [Hk Hf].
  split; [exact Hk |]. split; [| exact Hf].
  intros name. apply file_present_keeps, Hk.
Qed.

(** ** The last revision when the folder name is taken by a file *)

Lemma MkdirAll_on_file (m : FS) (name d : gostring) :
  os.Stat m name = inl (File d) → os.MkdirAll m name = inr ErrNotDir.
Proof. intros H. unfold os.MkdirAll. rewrite H. reflexivity. Qed.

(** X15: in the last revision, when the folder path names a regular file
    and the GET is answered 200, [downloadPDF] asks for the folder with
    [MkdirAll] (the folder test wants a directory), the call fails, and
    the error of the folder step is returned: no file is created and the
    file system is unchanged. *)
Theorem last_folder_taken_by_file (net : Network) (ul : gostring → gostring)
    (pdfURL folder d : gostring) (w : World) (resp : Response) :
  os.Stat (fs w) folder = inl (File d) →
  ¬ file_present (fs w) (destination_last ul pdfURL folder) →
  net (trace w) pdfURL = Some resp → StatusCode resp = 200 →
  downloadPDF_last net ul pdfURL folder w
  = (Some ErrCreatingFolder,
     mkWorld (fs w) (trace w ++ [EvGet pdfURL; EvMkdirAll folder])).
Proof.
  intros Hstat Hfile Hnet Hst.
  rewrite (downloadPDF_last_200 net ul pdfURL folder w resp Hfile Hnet Hst).
  unfold fetch_and_store. rewrite Hstat. cbn [negb].
  rewrite (MkdirAll_on_file _ _ _ Hstat). reflexivity.
Qed.

Lemma last_folder_taken_by_file_witness :
  downloadPDF_last net_example (λ s, s) pdf_a "PDFs" w_folder_is_file
  = (Some ErrCreatingFolder,
     mkWorld (fs w_folder_is_file) [EvGet pdf_a; EvMkdirAll "PDFs"]).
Proof.
  apply (last_folder_taken_by_file net_example (λ s, s) pdf_a "PDFs"
           "not a folder" w_folder_is_file (mkResponse 200 (mkBody "%PDF-a" None))).
  - vm_compute. reflexivity.
  - intros [data H]. vm_compute in H. discriminate.
  - vm_compute. reflexivity.
  - reflexivity.
Defined.

(** X17: the last revision derives the file name in lower case, so once
    [downloadPDF] has returned [nil] for a URL, a later call for any URL
    with the same lower-cased name, the same URL or one that differs in
    the case of the name, is skipped: no request, [nil], the file system
    as it is. *)
Theorem last_finished_download_is_skipped (net net' : Network)
    (ul : gostring → gostring) (pdfURL other folder : gostring) (w : World)
    (t : list event) :
  fst (downloadPDF_last net ul pdfURL folder w) = None →
  destination_last ul other folder = destination_last ul pdfURL folder →
  downloadPDF_last net' ul other folder
    (mkWorld (fs (snd (downloadPDF_last net ul pdfURL folder w))) t)
  = (None,
     mkWorld (fs (snd (downloadPDF_last net ul pdfURL folder w)))
             (t ++ [EvLog (LogSkipping (destination_last ul pdfURL folder))])).
Proof.
  intros Hnil Hdest.
  pose proof (outcome_present _ _ _ _ _ _
                (downloadPDF_last_outcome net ul pdfURL folder w)
                (or_introl Hnil)) as Hp.
  rewrite downloadPDF_last_skip; cbn [fs trace]; rewrite Hdest; done.
Qed.

Lemma last_finished_download_is_skipped_witness :
  downloadPDF_last net_example (λ s, s) "https://x.com/A.PDF" "PDFs"
    (mkWorld (fs (snd (downloadPDF_last net_example (λ s, s) pdf_a "PDFs"
                         w_empty))) [])
  = (None,
     mkWorld (fs (snd (downloadPDF_last net_example (λ s, s) pdf_a "PDFs"
                         w_empty)))
             [EvLog (LogSkipping "PDFs/a.pdf")]).
Proof.
  apply (last_finished_download_is_skipped net_example net_example (λ s, s)
           pdf_a "https://x.com/A.PDF" "PDFs" w_empty []);
    vm_compute; reflexivity.
Defined.

(** * Further properties of the batch and of [main] *)

Lemma gets_app (evs1 evs2 : list event) :
  gets (evs1 ++ evs2) = gets evs1 ++ gets evs2.
Proof. apply omap_app. Qed.

(** What one pass of the loop does, in one statement: its history, the
    requests it makes, and what it leaves on disk. *)
Lemma download_each_facts (net : Network) (links : list gostring)
    (folder : gostring) :
  ∀ w, ∃ evs,
    trace (snd (download_each net links folder w)) = trace w ++ evs ∧
    sublist (gets evs) links ∧
    fs_keeps (fs w) (fs (snd (download_each net links folder w))) ∧
    (∀ u, u ∈ gets evs → ¬ file_present (fs w) (destination u folder)) ∧
    (∀ link r, (link, r) ∈ results_logged evs →
               r = None ∨ r = Some ErrSaving →
               file_present (fs (snd (download_each net links folder w)))
                            (destination link folder)).
Proof.
  induction links as [|link links IH]; intros w.
  - exists []. rewrite app_nil_r. cbn. split; [done |]. split; [done |].
    split; [apply fs_keeps_refl |]. split; intros ? ; [intros H | intros ? H];
      inversion H.
  - rewrite download_each_cons. cbv zeta.
    pose proof (downloadPDF_outcome net link folder w) as Hout.
    destruct (outcome_history _ _ _ _ _ _ Hout) as (evs0 & Htr0 & Hg0 & Hp0 & Hr0).
    destruct (outcome_keeps _ _ _ _ _ _ Hout) as [Hk0 _].
    pose proof (outcome_present _ _ _ _ _ _ Hout) as Hdone.
    set (r := downloadPDF net link folder w) in *.
    set (line := match fst r with
                 | Some e => LogFailed link e
                 | None => LogDownloaded link
                 end).
    set (w1 := mkWorld (fs (snd r)) (trace (snd r) ++ [EvLog line])).
    destruct (IH w1) as (evs2 & Htr2 & Hsub2 & Hk2 & Hg2 & Hr2).
    exists (evs0 ++ [EvLog line] ++ evs2).
    assert (Hline : results_logged [EvLog line] = [(link, fst r)]).
    { subst line. destruct (fst r); reflexivity. }
    assert (Hgl : gets [EvLog line] = []) by reflexivity.
    split; [rewrite Htr2; subst w1; cbn [trace]; rewrite Htr0, <- !app_assoc; done |].
    split.
    { rewrite !gets_app, Hgl, app_nil_l.
      destruct Hg0 as [-> | ->]; cbn [app].
      - apply sublist_cons, Hsub2.
      - apply sublist_skip, Hsub2. }
    split; [eapply fs_keeps_trans; [exact Hk0 | exact Hk2] |].
    split.
    { intros u. rewrite !gets_app, Hgl, app_nil_l, elem_of_app. intros [Hu | Hu].
      - intros Hp. destruct Hg0 as [Hg0 | Hg0]; rewrite Hg0 in Hu.
        + inversion Hu.
        + apply list_elem_of_singleton in Hu as ->.
          rewrite (Hp0 Hp) in Hg0. discriminate.
      - intros Hp. apply (Hg2 u Hu). subst w1. cbn [fs].
        eapply file_present_keeps; [exact Hk0 | exact Hp]. }
    intros link' r'. rewrite !results_logged_app, Hr0, Hline, app_nil_l.
    cbn [app]. rewrite elem_of_cons. intros [[= -> ->] | Hin] Hres.
    + eapply file_present_keeps; [exact Hk2 |]. subst w1. cbn [fs].
      apply Hdone, Hres.
    + apply (Hr2 _ _ Hin Hres).
Qed.

(** X11: the loop requests nothing but its links: the requests of a pass
    are a sub-sequence of the links, in their order and at most one per
    occurrence, no request is made for a link whose file was there when
    the pass began, and every file that was there is still there at the
    end. *)
Theorem batch_requests_only_missing_links (net : Network)
    (links : list gostring) (folder : gostring) (w : World) :
  ∃ evs,
    trace (snd (download_each net links folder w)) = trace w ++ evs ∧
    sublist (gets evs) links ∧
    (∀ u, u ∈ gets evs → ¬ file_present (fs w) (destination u folder)) ∧
    (∀ name, file_present (fs w) name →
             file_present (fs (snd (download_each net links folder w))) name).
Proof.
  destruct (download_each_facts net links folder w)
    as (evs & Htr & Hsub & Hk & Hg & _).
  exists evs. split; [exact Htr |]. split; [exact Hsub |]. split; [exact Hg |].
  intros name. apply file_present_keeps, Hk.
Qed.

(** X12: a second pass over the same links, whatever the network then
    answers, makes no request for a link the first pass reported as
    downloaded, nor for one whose copy was cut: their files are on disk
    and the calls are skipped. *)
Theorem second_pass_skips_stored_links (net net' : Network)
    (links : list gostring) (folder : gostring) (w : World)
    (t evs1 evs2 : list event) :
  trace (snd (download_each net links folder w)) = trace w ++ evs1 →
  trace (snd (download_each net' links folder
                (mkWorld (fs (snd (download_each net links folder w))) t)))
  = t ++ evs2 →
  ∀ link r, (link, r) ∈ results_logged evs1 →
            r = None ∨ r = Some ErrSaving →
            link ∉ gets evs2.
Proof.
  intros H1 H2 link r Hin Hres.
  destruct (download_each_facts net links folder w)
    as (evs & Htr & _ & _ & _ & Hstored).
  rewrite H1 in Htr. apply app_inv_head in Htr. subst evs.
  destruct (download_each_facts net' links folder
              (mkWorld (fs (snd (download_each net links folder w))) t))
    as (evs' & Htr' & _ & _ & Hg & _).
  rewrite H2 in Htr'. cbn [trace] in Htr'. apply app_inv_head in Htr'. subst evs'.
  intros Hreq. apply (Hg link Hreq). cbn [fs]. apply (Hstored link r Hin Hres).
Qed.

Lemma second_pass_skips_stored_links_witness :
  pdf_a ∉ gets (trace (snd (download_each net_example [pdf_a; pdf_b] "PDFs"
                  (mkWorld (fs (snd (download_each net_example [pdf_a; pdf_b]
                                       "PDFs" w_empty))) [])))).
Proof.
  apply (second_pass_skips_stored_links net_example net_example [pdf_a; pdf_b]
           "PDFs" w_empty []
           (trace (snd (download_each net_example [pdf_a; pdf_b] "PDFs" w_empty)))
           (trace (snd (download_each net_example [pdf_a; pdf_b] "PDFs"
                     (mkWorld (fs (snd (download_each net_example [pdf_a; pdf_b]
                                          "PDFs" w_empty))) []))))
           eq_refl eq_refl pdf_a None).
  - assert (H : results_logged
                  (trace (snd (download_each net_example [pdf_a; pdf_b] "PDFs"
                                 w_empty)))
                = [(pdf_a, None); (pdf_b, Some (ErrStatus 404))])
      by (vm_compute; reflexivity).
    rewrite H. left.
  - left. reflexivity.
Defined.

(** ** [main] *)

(** The page path is a plain name in the working directory. *)
Lemma Stat_page (m : FS) :
  os.Stat m localURLFilePath
  = match m !! localURLFilePath with
    | Some n => inl n
    | None => inr ErrNotExist
    end.
Proof.
  assert (Hc : path.Clean localURLFilePath = localURLFilePath)
    by (vm_compute; reflexivity).
  assert (Ha : os.visited localURLFilePath = []) by (vm_compute; reflexivity).
  assert (Hn : os.node_at m localURLFilePath = m !! localURLFilePath).
  { unfold os.node_at.
    assert (H : os.always_dir localURLFilePath = false)
      by (vm_compute; reflexivity).
    rewrite H. reflexivity. }
  unfold os.Stat.
  destruct localURLFilePath as [|c s] eqn:E; [discriminate |].
  cbv zeta. rewrite Hc, Ha, Hn. reflexivity.
Qed.

(** [createDirectory] of the folder does not touch the page. *)
Lemma createDirectory_page (w : World) :
  fs (snd (createDirectory folderName w)) !! localURLFilePath
  = fs w !! localURLFilePath.
Proof.
  unfold createDirectory. run_prog. cbn [fs trace].
  destruct (os.Mkdir (fs w) folderName) as [m'|e] eqn:E; cbn [snd fs]; [| done].
  apply Mkdir_inv in E as (_ & _ & _ & ->).
  apply lookup_insert_ne. vm_compute. discriminate.
Qed.

Section FailedPageFetch.
Variables (net : Network) (w : World).
Hypothesis Hfail :
  ∀ history resp, net history urlFromChemicalGuys = Some resp →
                  StatusCode resp ≠ 200.

Lemma failed_page_fetch_run :
  let w0 := snd (createDirectory folderName w) in
  snd (downloadFileUsingURLandFilePath net urlFromChemicalGuys
         localURLFilePath w0)
  = mkWorld (fs w0) (trace w0 ++ [EvGet urlFromChemicalGuys]).
Proof using Hfail.
  cbv zeta. rewrite downloadFile_run. cbv zeta.
  destruct (net _ urlFromChemicalGuys) as [resp|] eqn:Hnet; [| reflexivity].
  apply Hfail in Hnet. apply Nat.eqb_neq in Hnet. rewrite Hnet. reflexivity.
Qed.
End FailedPageFetch.

(** X13: when the page cannot be fetched and no copy of it is in the
    working directory, [main] makes the one request for the page, logs the
    extraction error and stops there: no link is processed, and the error
    of the fetch itself is not logged. *)
Theorem main_without_page (net : Network) (w : World) :
  (∀ history resp, net history urlFromChemicalGuys = Some resp →
                   StatusCode resp ≠ 200) →
  fs w !! localURLFilePath = None →
  let w0 := snd (createDirectory folderName w) in
  main net w
  = (tt, mkWorld (fs w0)
           (trace w0 ++ [EvGet urlFromChemicalGuys;
                         EvLog (LogExtractError ErrReadFile)])).
Proof.
  intros Hfail Hnone. cbv zeta. rewrite main_run. cbv zeta.
  rewrite (failed_page_fetch_run net w Hfail). cbn [fs trace].
  unfold os.ReadFile. rewrite Stat_page, createDirectory_page, Hnone.
  rewrite <- app_assoc. reflexivity.
Qed.

Lemma main_without_page_witness :
  main net_example w_empty
  = (tt, mkWorld (<["PDFs" := Dir]> ∅)
           [EvMkdir "PDFs"; EvGet urlFromChemicalGuys;
            EvLog (LogExtractError ErrReadFile)]).
Proof.
  rewrite (main_without_page net_example w_empty).
  - vm_compute. reflexivity.
  - intros history resp H. vm_compute in H. discriminate.
  - reflexivity.
Defined.

(** X14: when the page cannot be fetched but a copy of it is in the
    working directory, [main] goes on with the links of that copy: the
    failed fetch leaves the copy as it is and is not logged, and the loop
    runs over what the extraction finds in the old text. *)
Theorem main_uses_saved_page (net : Network) (w : World) (page : gostring) :
  (∀ history resp, net history urlFromChemicalGuys = Some resp →
                   StatusCode resp ≠ 200) →
  fs w !! localURLFilePath = Some (File page) →
  let w0 := snd (createDirectory folderName w) in
  main net w
  = download_each net (extractURLs page) folderName
      (mkWorld (fs w0) (trace w0 ++ [EvGet urlFromChemicalGuys])).
Proof.
  intros Hfail Hpage. cbv zeta. rewrite main_run. cbv zeta.
  rewrite (failed_page_fetch_run net w Hfail). cbn [fs trace].
  unfold os.ReadFile. rewrite Stat_page, createDirectory_page, Hpage.
  reflexivity.
Qed.

Lemma main_uses_saved_page_witness :
  gets (trace (snd (main net_example w_stale_page)))
  = [urlFromChemicalGuys; pdf_a].
Proof.
  rewrite (main_uses_saved_page net_example w_stale_page
             (html.render_document (anchors [pdf_a]))).
  - vm_compute. reflexivity.
  - intros history resp H. vm_compute in H. discriminate.
  - vm_compute. reflexivity.
Defined.

(** X16: when the page is answered 200 and its path is not a directory,
    [main] runs the loop over the links of the bytes that arrived, in
    place of whatever was saved before, also when the transfer was cut:
    the error of the fetch is dropped. *)
Theorem main_uses_fetched_page (net : Network) (w : World) (resp : Response) :
  (∀ history, net history urlFromChemicalGuys = Some resp) →
  StatusCode resp = 200 →
  fs w !! localURLFilePath ≠ Some Dir →
  let w0 := snd (createDirectory folderName w) in
  let data := fst (received (body resp)) in
  main net w
  = download_each net (extractURLs data) folderName
      (mkWorld (<[localURLFilePath := File data]> (fs w0))
         (trace w0 ++ [EvGet urlFromChemicalGuys; EvCreate localURLFilePath;
                       EvWrite localURLFilePath data])).
Proof.
  intros Hnet Hst Hpage. cbv zeta. rewrite main_run. cbv zeta.
  rewrite downloadFile_run. cbv zeta. rewrite Hnet, Hst.
  change (negb (200 =? 200)) with false. cbv iota.
  set (w0 := snd (createDirectory folderName w)).
  assert (Hc : path.Clean localURLFilePath = localURLFilePath)
    by (vm_compute; reflexivity).
  assert (Hcreate : os.Create (fs w0) localURLFilePath
                    = inl (<[localURLFilePath := File []]> (fs w0))).
  { pose proof (Stat_page (fs w0)) as Hs. unfold os.Stat in Hs.
    unfold os.Create.
    destruct localURLFilePath as [|c s] eqn:E; [discriminate |].
    rewrite <- E in *. cbv zeta in *. rewrite Hc in *.
    assert (Ha : os.visited localURLFilePath = []) by (vm_compute; reflexivity).
    rewrite Ha in *. cbn [os.walk] in *.
    assert (Hn : os.node_at (fs w0) localURLFilePath = fs w0 !! localURLFilePath).
    { unfold os.node_at.
      assert (H : os.always_dir localURLFilePath = false)
        by (vm_compute; reflexivity).
      rewrite H. reflexivity. }
    rewrite Hn. subst w0. rewrite createDirectory_page.
    destruct (fs w !! localURLFilePath) as [[d|]|]; done. }
  rewrite Hcreate. cbn [snd fs trace]. rewrite Hc, insert_insert_eq.
  unfold os.ReadFile. rewrite Stat_page, lookup_insert_eq.
  rewrite <- app_assoc. reflexivity.
Qed.

Lemma main_uses_fetched_page_witness :
  gets (trace (snd (main net_site w_stale_page)))
  = [urlFromChemicalGuys; pdf_a; pdf_b; pdf_c].
Proof.
  rewrite (main_uses_fetched_page net_site w_stale_page
             (mkResponse 200 (mkBody sds_page None))).
  - vm_compute. reflexivity.
  - intros history. reflexivity.
  - reflexivity.
  - vm_compute. discriminate.
Defined.
